(** * chicago_lst: zonal statistics, anomaly scoring, usability filtering
      and covariate matching

    A shallow embedding of the algorithmic core of the analysis pipeline:

    - [Zonal]    : analysis/01_extract_zonal_timeseries.py
    - [Anomaly]  : analysis/02_compute_anomaly_and_risk.py
    - [Collapse] : analysis/30_collapse_and_filter_observations.py
    - [Matching] : analysis/34_match_controls_by_covariates.py

    Numbers.  A Python / numpy float is modelled by [float]: a rational
    [Fin q], or one of the three non-finite values [NaN], [PInf], [NInf].
    Finite arithmetic is exact (rounding is abstracted away); the
    non-finite cases follow IEEE 754, which is what decides every
    [isfinite], [fillna], [clip] and comparison in the scripts.

    External collaborators (rasterio, shapely, the file system) are
    oracles: record fields whose result is either a value or a Python
    exception. *)

From Stdlib Require Import List ZArith QArith Qround Qminmax Lqa Lia Bool.
From Stdlib Require Import Strings.String Strings.Ascii.
From stdpp Require Import gmap strings sorting.
Import ListNotations.

(* ===================================================================== *)
(** * Floating-point values and numpy reductions                          *)
(* ===================================================================== *)

Module Np.

Inductive float : Type :=
| Fin (q : Q)
| NaN
| PInf
| NInf.

Definition isfinite (x : float) : bool :=
  match x with Fin _ => true | _ => false end.

Definition isnan (x : float) : bool :=
  match x with NaN => true | _ => false end.

(** Equality up to the representation of the rational. *)
Definition feq (x y : float) : Prop :=
  match x, y with
  | Fin a, Fin b => (a == b)%Q
  | NaN, NaN | PInf, PInf | NInf, NInf => True
  | _, _ => False
  end.

(** Sign of a rational, used by the products with an infinity. *)
Definition Qsign (q : Q) : comparison := (q ?= 0)%Q.

Definition fneg (x : float) : float :=
  match x with
  | Fin a => Fin (- a)
  | NaN => NaN
  | PInf => NInf
  | NInf => PInf
  end.

Definition fadd (x y : float) : float :=
  match x, y with
  | NaN, _ | _, NaN => NaN
  | Fin a, Fin b => Fin (a + b)
  | PInf, NInf | NInf, PInf => NaN
  | PInf, _ | _, PInf => PInf
  | NInf, _ | _, NInf => NInf
  end.

Definition fsub (x y : float) : float := fadd x (fneg y).

Definition finf_of_sign (c : comparison) : float :=
  match c with Gt => PInf | Lt => NInf | Eq => NaN end.

Definition fmul (x y : float) : float :=
  match x, y with
  | NaN, _ | _, NaN => NaN
  | Fin a, Fin b => Fin (a * b)
  | PInf, Fin b | Fin b, PInf => finf_of_sign (Qsign b)
  | NInf, Fin b | Fin b, NInf => finf_of_sign (CompOpp (Qsign b))
  | PInf, PInf | NInf, NInf => PInf
  | PInf, NInf | NInf, PInf => NInf
  end.

(** [x / y]; a finite value divided by zero is an infinity of its sign and
    [0 / 0] is [NaN], as numpy and pandas have it. *)
Definition fdiv (x y : float) : float :=
  match x, y with
  | NaN, _ | _, NaN => NaN
  | Fin a, Fin b =>
      if Qeq_bool b 0 then finf_of_sign (Qsign a) else Fin (a / b)
  | Fin _, _ => Fin 0
  | PInf, Fin b => if Qle_bool 0 b then PInf else NInf
  | NInf, Fin b => if Qle_bool 0 b then NInf else PInf
  | _, _ => NaN
  end.

(** IEEE comparisons: every comparison with [NaN] is false. *)
Definition feqb (x y : float) : bool :=
  match x, y with
  | Fin a, Fin b => Qeq_bool a b
  | PInf, PInf | NInf, NInf => true
  | _, _ => false
  end.

Definition fleb (x y : float) : bool :=
  match x, y with
  | NaN, _ | _, NaN => false
  | NInf, _ | _, PInf => true
  | Fin a, Fin b => Qle_bool a b
  | _, _ => false
  end.

Definition fltb (x y : float) : bool :=
  match x, y with
  | NaN, _ | _, NaN => false
  | Fin a, Fin b => Qle_bool a b && negb (Qeq_bool a b)
  | NInf, NInf | PInf, PInf => false
  | NInf, _ | _, PInf => true
  | _, _ => false
  end.

(** The order [np.sort] and [np.argsort] use: the usual order on the
    numbers, with [NaN] after everything else. *)
Definition sort_leb (x y : float) : bool :=
  match x, y with
  | _, NaN => true
  | NaN, _ => false
  | _, _ => fleb x y
  end.

Definition of_Z (z : Z) : float := Fin (inject_Z z).
Definition of_nat (n : nat) : float := Fin (inject_Z (Z.of_nat n)).

(** ** Sorting *)

(** Sorting by a boolean order, as [np.sort] does.  (How equal keys are
    ordered among themselves is not specified by numpy's default sort and
    nothing below depends on it.) *)
Definition leb_rel {A} (leb : A -> A -> bool) : relation A :=
  fun x y => leb x y = true.

#[export] Instance leb_rel_dec {A} (leb : A -> A -> bool) (x y : A) :
  Decision (leb_rel leb x y) := bool_eq_dec (leb x y) true.

Definition sort {A} (leb : A -> A -> bool) (l : list A) : list A :=
  merge_sort (leb_rel leb) l.

(** ** Reductions over finite samples *)

Definition Qsum (l : list Q) : Q := fold_right Qplus 0%Q l.

Definition Qlen (l : list Q) : Q := inject_Z (Z.of_nat (length l)).

(** [vals.mean()], in exact arithmetic: numpy rounds the sum and the
    quotient, so the float it returns can differ from this value in its
    last digits. *)
Definition mean (vals : list Q) : Q := (Qsum vals / Qlen vals)%Q.

(** [np.percentile(vals, p)] with the default linear interpolation: the
    virtual index [(n-1) * p/100] in the sorted sample, interpolated
    between its two neighbours. *)
Definition percentile (vals : list Q) (p : Q) : Q :=
  let s := sort Qle_bool vals in
  let pos := (inject_Z (Z.of_nat (length s) - 1) * (p / 100))%Q in
  let lo := Qfloor pos in
  let frac := (pos - inject_Z lo)%Q in
  let a := nth (Z.to_nat lo) s 0%Q in
  let b := nth (Z.to_nat (lo + 1)) s a in
  (a + (b - a) * frac)%Q.

(** [np.median(vals)]: the middle element, or the mean of the two middle
    elements of an even-sized sample. *)
Definition median (vals : list Q) : Q :=
  let s := sort Qle_bool vals in
  let n := length s in
  if Nat.even n
  then ((nth (n / 2 - 1) s 0 + nth (n / 2) s 0) / 2)%Q
  else nth (n / 2) s 0%Q.

(** The finite entries of an array, [arr[np.isfinite(arr)]]. *)
Fixpoint finite_values (arr : list float) : list Q :=
  match arr with
  | [] => []
  | Fin q :: arr' => q :: finite_values arr'
  | _ :: arr' => finite_values arr'
  end.

(** The entries that are not [NaN] (what pandas reductions and the
    [nan*] functions of numpy keep). *)
Definition dropna (s : list float) : list float :=
  List.filter (fun x => negb (isnan x)) s.

(** ** Reductions over floats (pandas columns) *)

Definition fsum (l : list float) : float := fold_right fadd (Fin 0) l.

(** [np.nanpercentile(s, p)]: the percentile of the entries that are not
    [NaN], by linear interpolation; [NaN] when there is none. *)
Definition nanpercentile (s : list float) (p : Q) : float :=
  let v := sort sort_leb (dropna s) in
  match v with
  | [] => NaN
  | _ =>
      let pos := (inject_Z (Z.of_nat (length v) - 1) * (p / 100))%Q in
      let lo := Qfloor pos in
      let frac := (pos - inject_Z lo)%Q in
      let a := nth (Z.to_nat lo) v NaN in
      let b := nth (Z.to_nat (lo + 1)) v a in
      fadd a (fmul (fsub b a) (Fin frac))
  end.

(** The square root of a float, kept exact: [Sqrt v] stands for the float
    [sqrt v], which is a rational only by accident.  On the non-negative
    radicands that occur (variances), [sqrt a = sqrt b] iff [a = b]; and
    [sqrt NaN] is [NaN]. *)
Inductive root : Type := Sqrt (radicand : float).

Definition radicand (r : root) : float := let 'Sqrt v := r in v.

Definition root_eq (a b : root) : Prop := feq (radicand a) (radicand b).

Definition root_isnan (r : root) : bool := isnan (radicand r).

End Np.

Export Np.

(* ===================================================================== *)
(** * Python results, exceptions and logged calls                         *)
(* ===================================================================== *)

Module Py.

(** The exceptions the scripts tell apart: [ValueError] (which
    [rasterio.mask.mask] raises on shapes that do not overlap the raster,
    and which the scripts raise on a configuration error) and every other
    exception. *)
Inductive exn : Type :=
| ValueError (msg : string)
| OtherError (msg : string).

Inductive result (A : Type) : Type :=
| Ok (a : A)
| Raise (e : exn).
Arguments Ok {A} a.
Arguments Raise {A} e.

#[export] Instance result_ret : MRet result := fun _ a => Ok a.
#[export] Instance result_bind : MBind result := fun _ _ f m =>
  match m with Ok a => f a | Raise e => Raise e end.
#[export] Instance result_fmap : FMap result := fun _ _ f m =>
  match m with Ok a => Ok (f a) | Raise e => Raise e end.


(** Raster bands a tile may read. *)
Inductive band : Type := Primary | Cloud | Water | QC | LstErr.

(** Calls into the raster library, in the order they are made. *)
Inductive event : Type :=
| BoundsCheck
| MaskCall (b : band).

(** A computation that logs its library calls and may raise. *)
Definition io (A : Type) : Type := (list event * result A)%type.

#[export] Instance io_ret : MRet io := fun _ a => ([], Ok a).
#[export] Instance io_bind : MBind io := fun _ _ f m =>
  match m with
  | (l, Ok a) => let '(l', r) := f a in (l ++ l', r)
  | (l, Raise e) => (l, Raise e)
  end.

Definition tell (e : event) : io unit := ([e], Ok tt).
Definition lift {A} (r : result A) : io A := ([], r).
Definition trace {A} (m : io A) : list event := fst m.
Definition outcome {A} (m : io A) : result A := snd m.

(** [s.endswith(suffix)] and [s[:-n]]. *)
Definition endswith (s suffix : string) : bool :=
  let n := String.length s in
  let m := String.length suffix in
  (m <=? n)%nat && String.eqb (substring (n - m) m s) suffix.

Definition drop_last (n : nat) (s : string) : string :=
  substring 0 (String.length s - n) s.

End Py.

Export Py.

(* ===================================================================== *)
(** * utils_config.py                                                     *)
(* ===================================================================== *)

Module Config.

(** [scale] and [offset] are the finite numbers of a configuration file;
    [NaN] and [Infinity], which [json.loads] also accepts, are outside
    the model. *)
Record TransformSpec : Type := {
  type : string;
  scale : option Q;
  offset : option Q
}.

Record QualitySpec : Type := {
  enabled : bool;
  ecostress_companion_masks : bool;
  cloud_suffix : string;
  water_suffix : string;
  qc_suffix : string;
  lst_err_suffix : string;
  keep_cloud_values : list Z;
  keep_water_values : list Z;
  qc_keep_classes : list Z;
  qc_class_bitmask : Z;
  max_lst_err : option Q
}.

Record BaselineSpec : Type := {
  grouping : string;
  min_obs_per_group : Z
}.

(** The fields of [Config] the modelled functions read. *)
Record Config : Type := {
  nodata_below : option Q;
  nodata_equals : option Q;
  value_transform : TransformSpec;
  stats : list string;
  quality : QualitySpec;
  baseline : BaselineSpec
}.

(** The defaults of [QualitySpec]. *)
Definition default_quality : QualitySpec := {|
  enabled := false;
  ecostress_companion_masks := false;
  cloud_suffix := "_cloud.tif";
  water_suffix := "_water.tif";
  qc_suffix := "_QC.tif";
  lst_err_suffix := "_LST_err.tif";
  keep_cloud_values := [0%Z];
  keep_water_values := [0%Z];
  qc_keep_classes := [0%Z; 1%Z];
  qc_class_bitmask := 3%Z;
  max_lst_err := None
|}.

End Config.

Export Config.

(* ===================================================================== *)
(** * analysis/01_extract_zonal_timeseries.py                             *)
(* ===================================================================== *)

Module Zonal.

(** [transform_values(arr, cfg)] *)
Definition transform_values (arr : list float) (cfg : Config)
  : result (list float) :=
  let ts := value_transform cfg in
  if String.eqb (type ts) "identity" then Ok arr
  else if String.eqb (type ts) "scale_offset" then
    let scale := default 1%Q (scale ts) in
    let offset := default 0%Q (offset ts) in
    Ok (map (fun x => fadd (fmul x (Fin scale)) (Fin offset)) arr)
  else Raise (ValueError ("Unknown value_transform.type: " +:+ type ts)).

(** [safe_stat(arr, stat)] *)
Definition safe_stat (arr : list float) (stat : string) : result float :=
  if (length arr =? 0)%nat then Ok NaN
  else
    let finite := map isfinite arr in
    if (count_occ bool_dec finite true =? 0)%nat then Ok NaN
    else
      let vals := finite_values arr in
      if String.eqb stat "mean" then Ok (Fin (mean vals))
      else if String.eqb stat "median" then Ok (Fin (median vals))
      else if String.eqb stat "p90" then Ok (Fin (percentile vals 90))
      else if String.eqb stat "count" then Ok (of_nat (length vals))
      else Raise (ValueError ("Unknown stat: " +:+ stat)).

(** [data[cond(data)] = np.nan] *)
Definition set_nan_where (cond : float -> bool) (data : list float)
  : list float :=
  map (fun x => if cond x then NaN else x) data.

(** [keep &= m] on arrays of one shape (shapes are abstracted to sizes);
    numpy refuses operands it cannot broadcast together. *)
Definition and_mask (keep m : list bool) : result (list bool) :=
  if (length keep =? length m)%nat
  then Ok (zip_with andb keep m)
  else Raise (ValueError "operands could not be broadcast together").

(** [np.isin(x, values)] for one pixel. *)
Definition isin (values : list Z) (x : Z) : bool :=
  existsb (Z.eqb x) values.

(** [(qc.astype("uint16") & np.uint16(bitmask)).astype("uint8")] for one
    pixel. *)
Definition qc_class (bitmask : Z) (qc : Z) : Z :=
  (Z.land (qc mod 65536) (bitmask mod 65536) mod 256)%Z.

Section Rasters.
(** Polygons are shapely's: the model never looks inside one. *)
Context {Geometry : Type}.

(** An open raster, [rasterio.io.DatasetReader], with pixels of type [P]. *)
Record DatasetReader (P : Type) : Type := {
  (** [box( *src.bounds ).intersects(geom)] *)
  bounds_intersects : Geometry -> result bool;
  (** band 0 of [rasterio.mask.mask(src, [geom], crop=True, filled=True)] *)
  mask : Geometry -> result (list P);
  nodata : option float
}.
Arguments bounds_intersects {P} _ _.
Arguments mask {P} _ _.
Arguments nodata {P} _.

(** The inner function [_mask_band(src_mask)] of [zonal_stats_for_geom];
    [b] only names the call in the log. *)
Definition _mask_band {P} (geom : Geometry) (b : band)
    (src_mask : option (DatasetReader P)) : io (option (list P)) :=
  match src_mask with
  | None => mret None
  | Some ds =>
      _ ← tell (MaskCall b);
      match mask ds geom with
      | Ok m_img => mret (Some m_img)
      | Raise (ValueError _) => mret None
      | Raise e => lift (Raise e)
      end
  end.

(** [if band is not None: keep &= pred(band)] *)
Definition and_channel {P} (keep : list bool) (m : option (list P))
    (pred : P -> bool) : result (list bool) :=
  match m with
  | None => Ok keep
  | Some img => and_mask keep (map pred img)
  end.

(** The dictionary [{stat: float("nan") for stat in cfg.stats}]. *)
Definition nan_stats (cfg : Config) : gmap string float :=
  list_to_map (map (fun stat => (stat, NaN)) (stats cfg)).

(** The quality-masking block of [zonal_stats_for_geom]. *)
Definition quality_mask (geom : Geometry) (cfg : Config)
    (cloud_src water_src qc_src : option (DatasetReader Z))
    (lst_err_src : option (DatasetReader float))
    (data : list float) : io (list float) :=
  let q := quality cfg in
  let keep := map isfinite data in
  cloud ← _mask_band geom Cloud cloud_src;
  keep ← lift (and_channel keep cloud (isin (keep_cloud_values q)));
  water ← _mask_band geom Water water_src;
  keep ← lift (and_channel keep water (isin (keep_water_values q)));
  qc ← _mask_band geom QC qc_src;
  keep ← lift (and_channel keep qc
                 (fun v => isin (qc_keep_classes q)
                             (qc_class (qc_class_bitmask q) v)));
  keep ← match max_lst_err q with
         | None => mret keep
         | Some max_err =>
             err ← _mask_band geom LstErr lst_err_src;
             lift (and_channel keep err (fun e => fleb e (Fin max_err)))
         end;
  mret (zip_with (fun (k : bool) x => if k then x else NaN) keep data).

(** [zonal_stats_for_geom(src, geom, cfg, cloud_src=..., ...)].  The
    cast [astype("float32")] is not modelled: the samples are the exact
    values of the pixels, and the nodata tests compare exact values. *)
Definition zonal_stats_for_geom (src : DatasetReader float)
    (geom : Geometry) (cfg : Config)
    (cloud_src water_src qc_src : option (DatasetReader Z))
    (lst_err_src : option (DatasetReader float))
  : io (gmap string float) :=
  _ ← tell BoundsCheck;
  match bounds_intersects src geom with
  | Ok false => mret (nan_stats cfg)
  | _ =>
      _ ← tell (MaskCall Primary);
      match mask src geom with
      | Raise (ValueError _) => mret (nan_stats cfg)
      | Raise e => lift (Raise e)
      | Ok data =>
          let data :=
            match nodata src with
            | Some nd => set_nan_where (fun x => feqb x nd) data
            | None => data
            end in
          let data :=
            match nodata_equals cfg with
            | Some v => set_nan_where (fun x => feqb x (Fin v)) data
            | None => data
            end in
          let data :=
            match nodata_below cfg with
            | Some v => set_nan_where (fun x => fltb x (Fin v)) data
            | None => data
            end in
          data ← (if enabled (quality cfg)
                     && ecostress_companion_masks (quality cfg)
                  then quality_mask geom cfg cloud_src water_src qc_src
                         lst_err_src data
                  else mret data);
          data ← lift (transform_values data cfg);
          kvs ← lift (mapM (fun stat => v ← safe_stat data stat;
                                       mret (stat, v)) (stats cfg));
          mret (list_to_map kvs)
      end
  end.

(** What [main] finds on disk next to a raster: [Path.exists] and
    [rasterio.open] for the companion rasters. *)
Record FileSystem : Type := {
  exists_ : string -> bool;
  open_int : string -> result (DatasetReader Z);
  open_float : string -> result (DatasetReader float)
}.

Definition open_if_exists {P} (fs : FileSystem)
    (open : string -> result (DatasetReader P)) (cand : string)
  : result (option (DatasetReader P)) :=
  if exists_ fs cand then ds ← open cand; mret (Some ds) else mret None.

(** The companion rasters [main] hands to [zonal_stats_for_geom] for the
    raster named [name]: the block "Open ECOSTRESS companion rasters". *)
Definition open_companions (cfg : Config) (fs : FileSystem) (name : string)
  : option (DatasetReader Z) * option (DatasetReader Z)
    * option (DatasetReader Z) * option (DatasetReader float) :=
  let q := quality cfg in
  if enabled q && ecostress_companion_masks q && endswith name "_LST.tif"
  then
    let base := drop_last (String.length "_LST.tif") name in
    let opened :=
      cloud_src ← open_if_exists fs (open_int fs) (base +:+ cloud_suffix q);
      water_src ← open_if_exists fs (open_int fs) (base +:+ water_suffix q);
      qc_src ← open_if_exists fs (open_int fs) (base +:+ qc_suffix q);
      lst_err_src ← open_if_exists fs (open_float fs)
                      (base +:+ lst_err_suffix q);
      mret (cloud_src, water_src, qc_src, lst_err_src) in
    match opened with
    | Ok srcs => srcs
    | Raise _ => (None, None, None, None)
    end
  else (None, None, None, None).

(** One iteration of the loop over the AOIs of a tile in [main]: the
    statistics of the record appended for [geom]. *)
Definition main_zonal_record (cfg : Config) (fs : FileSystem)
    (name : string) (src : DatasetReader float) (geom : Geometry)
  : io (gmap string float) :=
  let '(cloud_src, water_src, qc_src, lst_err_src) :=
    open_companions cfg fs name in
  zonal_stats_for_geom src geom cfg cloud_src water_src qc_src lst_err_src.


(** ** Results *)

Lemma outcome_bind {A B} (m1 m2 : io A) (f g : A -> io B) :
  outcome m1 = outcome m2 ->
  (forall a, outcome (f a) = outcome (g a)) ->
  outcome (m1 ≫= f) = outcome (m2 ≫= g).
Proof.
  destruct m1 as [l1 r1], m2 as [l2 r2]; simpl; intros -> Hfg.
  destruct r2 as [a|e]; simpl; [|reflexivity].
  specialize (Hfg a).
  destruct (f a), (g a); simpl in *; exact Hfg.
Qed.


Lemma outcome_bind_r {A B} (m : io A) (f g : A -> io B) :
  (forall a, outcome (f a) = outcome (g a)) ->
  outcome (m ≫= f) = outcome (m ≫= g).
Proof. intros H; apply outcome_bind; [reflexivity | exact H]. Qed.



Lemma nan_stats_lookup (cfg : Config) (stat : string) :
  In stat (stats cfg) -> nan_stats cfg !! stat = Some NaN.
Proof.
  unfold nan_stats. induction (stats cfg) as [|s l IH]; simpl; [tauto|].
  intros [->|Hin].
  - apply lookup_insert_eq.
  - destruct (decide (s = stat)) as [->|Hne].
    + apply lookup_insert_eq.
    + rewrite lookup_insert_ne by exact Hne. apply IH, Hin.
Qed.

Lemma nan_stats_dom (cfg : Config) (stat : string) :
  nan_stats cfg !! stat = None <-> ~ In stat (stats cfg).
Proof.
  unfold nan_stats. induction (stats cfg) as [|s l IH]; simpl.
  - rewrite lookup_empty. tauto.
  - destruct (decide (s = stat)) as [->|Hne].
    + rewrite lookup_insert_eq. split; [discriminate | tauto].
    + rewrite lookup_insert_ne by exact Hne. rewrite IH. tauto.
Qed.

(** C5.  A polygon outside the raster's bounds, and a polygon whose crop
    raises [ValueError] (no overlap), both get [NaN] for every requested
    statistic and no exception; outside the bounds the function returns
    after the bounds check alone, without any call to
    [rasterio.mask.mask]. *)
Theorem zonal_no_overlap_is_nan (src : DatasetReader float)
    (geom : Geometry) (cfg : Config)
    (cloud_src water_src qc_src : option (DatasetReader Z))
    (lst_err_src : option (DatasetReader float)) :
  bounds_intersects src geom = Ok false
  \/ (exists msg, mask src geom = Raise (ValueError msg)) ->
  let run := zonal_stats_for_geom src geom cfg cloud_src water_src qc_src
               lst_err_src in
  (exists d, outcome run = Ok d
             /\ forall stat, In stat (stats cfg) -> d !! stat = Some NaN)
  /\ (bounds_intersects src geom = Ok false -> trace run = [BoundsCheck]).
Proof.
  intros H run; subst run; unfold zonal_stats_for_geom.
  destruct (bounds_intersects src geom) as [[|]|e] eqn:Hb; simpl.
  - destruct H as [H|[msg Hm]]; [discriminate|]. rewrite Hm; simpl.
    split; [|discriminate].
    exists (nan_stats cfg); split; [reflexivity | apply nan_stats_lookup].
  - split; [|reflexivity].
    exists (nan_stats cfg); split; [reflexivity | apply nan_stats_lookup].
  - destruct H as [H|[msg Hm]]; [discriminate|]. rewrite Hm; simpl.
    split; [|discriminate].
    exists (nan_stats cfg); split; [reflexivity | apply nan_stats_lookup].
Qed.

(** The candidate path of a companion raster: [base + suffix]. *)
Definition cand (name suffix : string) : string :=
  drop_last (String.length "_LST.tif") name +:+ suffix.









End Rasters.

Arguments DatasetReader : clear implicits.
Arguments FileSystem : clear implicits.
Arguments bounds_intersects {Geometry P} _ _.
Arguments mask {Geometry P} _ _.
Arguments nodata {Geometry P} _.


(** ** The reduction and the transform *)

Lemma count_finite_none (arr : list float) :
  Forall (fun x => isfinite x = false) arr ->
  count_occ bool_dec (map isfinite arr) true = 0%nat.
Proof.
  induction 1 as [|x arr Hx _ IH]; simpl; [reflexivity|].
  rewrite Hx. destruct (bool_dec false true); [discriminate | exact IH].
Qed.

Lemma count_finite_some (arr : list float) :
  Exists (fun x => isfinite x = true) arr ->
  (count_occ bool_dec (map isfinite arr) true =? 0)%nat = false.
Proof.
  intros H. apply Nat.eqb_neq. apply List.Exists_exists in H as (x & Hin & Hx).
  assert (Hc : (count_occ bool_dec (map isfinite arr) true > 0)%nat).
  { apply count_occ_In. rewrite <- Hx. apply in_map, Hin. }
  lia.
Qed.

(** C1.  With no sample at all, and with samples none of which is finite,
    the reduction is [NaN] for each of [mean], [median], [p90] and
    [count]: [count] is [NaN] there, not [0]. *)
Theorem safe_stat_no_finite_is_nan (arr : list float) (stat : string) :
  In stat ["mean"; "median"; "p90"; "count"] ->
  length arr = 0%nat \/ Forall (fun x => isfinite x = false) arr ->
  safe_stat arr stat = Ok NaN /\ safe_stat arr stat <> Ok (Fin 0).
Proof.
  intros _ H.
  assert (E : safe_stat arr stat = Ok NaN).
  { unfold safe_stat. destruct H as [H|H].
    - rewrite H. reflexivity.
    - destruct (length arr =? 0)%nat; [reflexivity|].
      rewrite (count_finite_none arr H). reflexivity. }
  rewrite E. split; [reflexivity | discriminate].
Qed.

Lemma safe_stat_no_finite_is_nan_witness :
  (In "count" ["mean"; "median"; "p90"; "count"]
   /\ (length [NaN; PInf; NInf] = 0%nat
       \/ Forall (fun x => isfinite x = false) [NaN; PInf; NInf]))
  /\ (safe_stat [NaN; PInf; NInf] "count" = Ok NaN
      /\ safe_stat [NaN; PInf; NInf] "count" <> Ok (Fin 0)).
Proof.
  assert (Hs : In "count" ["mean"; "median"; "p90"; "count"])
    by (simpl; tauto).
  assert (Ha : length [NaN; PInf; NInf] = 0%nat
               \/ Forall (fun x => isfinite x = false) [NaN; PInf; NInf])
    by (right; repeat constructor).
  exact (conj (conj Hs Ha)
           (safe_stat_no_finite_is_nan [NaN; PInf; NInf] "count" Hs Ha)).
Defined.

Definition known_stat (stat : string) : bool :=
  String.eqb stat "mean" || String.eqb stat "median"
  || String.eqb stat "p90" || String.eqb stat "count".

(** An unknown statistic name is reported only on data with a finite
    sample. *)
Lemma safe_stat_unknown_name (arr : list float) (stat : string) :
  known_stat stat = false ->
  safe_stat arr stat
  = if existsb isfinite arr
    then Raise (ValueError ("Unknown stat: " +:+ stat))
    else Ok NaN.
Proof.
  unfold known_stat, safe_stat. intros Hk.
  repeat (apply orb_false_elim in Hk as [Hk ?]).
  destruct (existsb isfinite arr) eqn:Hex.
  - apply existsb_exists in Hex as (x & Hin & Hx).
    assert (Hne : (length arr =? 0)%nat = false).
    { destruct arr; [destruct Hin | reflexivity]. }
    rewrite Hne, count_finite_some.
    + rewrite Hk. repeat match goal with H : _ = false |- _ => rewrite H end.
      reflexivity.
    + apply List.Exists_exists. exists x. split; assumption.
  - destruct (length arr =? 0)%nat; [reflexivity|].
    rewrite count_finite_none; [reflexivity|].
    apply List.Forall_forall. intros x Hin.
    destruct (isfinite x) eqn:Hx; [|reflexivity].
    assert (existsb isfinite arr = true)
      by (apply existsb_exists; exists x; split; assumption).
    congruence.
Qed.

(** An unknown transform type is reported whatever the data. *)
Lemma transform_values_unknown_type (arr : list float) (cfg : Config) :
  type (value_transform cfg) <> "identity" ->
  type (value_transform cfg) <> "scale_offset" ->
  transform_values arr cfg
  = Raise (ValueError ("Unknown value_transform.type: "
                       +:+ type (value_transform cfg))).
Proof.
  intros H1 H2. unfold transform_values.
  apply String.eqb_neq in H1, H2. rewrite H1, H2. reflexivity.
Qed.

(** C7, at the inputs where the code departs from it: on an empty array
    and on an array without a finite sample the unknown name ["bogus"] is
    answered with [NaN]; the [ValueError] comes only once a finite sample
    is present. *)
Theorem safe_stat_unknown_name_on_empty :
  safe_stat [] "bogus" = Ok NaN
  /\ safe_stat [NaN; PInf] "bogus" = Ok NaN
  /\ safe_stat [Fin 1] "bogus" = Raise (ValueError "Unknown stat: bogus").
Proof.
  assert (Hk : known_stat "bogus" = false) by reflexivity.
  rewrite !(safe_stat_unknown_name _ "bogus" Hk).
  repeat split.
Qed.

(** C8.  The transform acts on each sample by itself: under [identity] a
    finite sample [v] stays [v], under [scale_offset] it becomes
    [v * scale + offset] (with [scale = 1] and [offset = 0] when the
    configuration leaves them out); the array keeps its size. *)
Theorem transform_values_pointwise (arr : list float) (cfg : Config)
    (i : nat) (v : Q) :
  nth_error arr i = Some (Fin v) ->
  let ts := value_transform cfg in
  (type ts = "identity" ->
   exists out, transform_values arr cfg = Ok out
               /\ length out = length arr
               /\ nth_error out i = Some (Fin v))
  /\ (type ts = "scale_offset" ->
      exists out, transform_values arr cfg = Ok out
                  /\ length out = length arr
                  /\ nth_error out i
                     = Some (Fin (v * default 1%Q (scale ts)
                                  + default 0%Q (offset ts)))).
Proof.
  intros Hi ts; subst ts; unfold transform_values; split; intros Ht;
    rewrite Ht; simpl.
  - exists arr. auto.
  - eexists; split; [reflexivity|]. split; [apply length_map|].
    rewrite nth_error_map, Hi. reflexivity.
Qed.

Definition kelvin_to_celsius : Config := {|
  nodata_below := None;
  nodata_equals := None;
  value_transform :=
    {| type := "scale_offset"; scale := None; offset := Some (-27315 # 100) |};
  stats := ["mean"; "count"];
  quality := default_quality;
  baseline := {| grouping := "month"; min_obs_per_group := 5 |}
|}.

Lemma transform_values_pointwise_witness :
  nth_error [Fin 300; NaN] 0 = Some (Fin 300)
  /\ exists out, transform_values [Fin 300; NaN] kelvin_to_celsius = Ok out
                 /\ length out = 2%nat
                 /\ nth_error out 0
                    = Some (Fin (300 * 1 + (-27315 # 100))).
Proof.
  split; [reflexivity|].
  exact (proj2 (transform_values_pointwise [Fin 300; NaN] kelvin_to_celsius
                  0 300 eq_refl) eq_refl).
Defined.

(** A raster whose bounds the polygon misses; masking it would fail. *)
Definition far_tile : DatasetReader unit float := {|
  bounds_intersects := fun _ => Ok false;
  mask := fun _ => Raise (OtherError "read failed");
  nodata := None
|}.

Lemma zonal_no_overlap_is_nan_witness :
  (bounds_intersects far_tile () = Ok false
   \/ exists msg, mask far_tile () = Raise (ValueError msg))
  /\ (exists d,
        outcome (zonal_stats_for_geom far_tile () kelvin_to_celsius
                   None None None None) = Ok d
        /\ forall stat, In stat ["mean"; "count"] -> d !! stat = Some NaN)
  /\ (bounds_intersects far_tile () = Ok false ->
      trace (zonal_stats_for_geom far_tile () kelvin_to_celsius
               None None None None) = [BoundsCheck]).
Proof.
  assert (H : bounds_intersects far_tile () = Ok false
              \/ exists msg, mask far_tile () = Raise (ValueError msg))
    by (left; reflexivity).
  exact (conj H (zonal_no_overlap_is_nan far_tile () kelvin_to_celsius
                   None None None None H)).
Defined.

(** ** A tile whose water raster cannot be opened *)

Definition quality_on : Config := {|
  nodata_below := None;
  nodata_equals := None;
  value_transform := {| type := "identity"; scale := None; offset := None |};
  stats := ["mean"; "count"];
  quality :=
    {| enabled := true;
       ecostress_companion_masks := true;
       cloud_suffix := "_cloud.tif";
       water_suffix := "_water.tif";
       qc_suffix := "_QC.tif";
       lst_err_suffix := "_LST_err.tif";
       keep_cloud_values := [0%Z];
       keep_water_values := [0%Z];
       qc_keep_classes := [0%Z; 1%Z];
       qc_class_bitmask := 3%Z;
       max_lst_err := None |};
  baseline := {| grouping := "month"; min_obs_per_group := 5 |}
|}.

(** Two pixels, 300 and 310; the second one is cloudy. *)
Definition lst_tile : DatasetReader unit float := {|
  bounds_intersects := fun _ => Ok true;
  mask := fun _ => Ok [Fin 300; Fin 310];
  nodata := None
|}.

Definition cloud_tile : DatasetReader unit Z := {|
  bounds_intersects := fun _ => Ok true;
  mask := fun _ => Ok [0%Z; 1%Z];
  nodata := None
|}.




End Zonal.

(* ===================================================================== *)
(** * pandas: column reductions, groupby and merge                        *)
(* ===================================================================== *)

Module Pd.

(** [Series.fillna(v)] on one entry. *)
Definition fillna (v : Q) (x : float) : float :=
  match x with NaN => Fin v | _ => x end.

(** [Series.count()]: the entries that are not [NaN]. *)
Definition series_count (s : list float) : nat := length (dropna s).

(** [Series.mean()], [NaN] entries skipped. *)
Definition series_mean (s : list float) : float :=
  let v := dropna s in
  if (length v =? 0)%nat then NaN else fdiv (fsum v) (of_nat (length v)).

(** The variance with [ddof] delta degrees of freedom, [NaN] entries
    skipped; [NaN] unless more than [ddof] values remain. *)
Definition series_var (ddof : nat) (s : list float) : float :=
  let v := dropna s in
  let n := length v in
  if (n <=? ddof)%nat then NaN
  else
    let m := fdiv (fsum v) (of_nat n) in
    fdiv (fsum (map (fun x => fmul (fsub x m) (fsub x m)) v))
         (of_nat (n - ddof)).

(** [Series.std()]: pandas' default is [ddof=1]. *)
Definition series_std (s : list float) : root := Sqrt (series_var 1 s).

Definition isinf (x : float) : bool :=
  match x with PInf | NInf => true | _ => false end.

Section GroupBy.
(** Rows [R] grouped by a key [K]; a row whose key is missing ([NaN] in a
    key column) belongs to no group. *)
Context {K R : Type} (eqb : K -> K -> bool) (key_of : R -> option K).

Definition has_key (k : K) (r : R) : bool :=
  match key_of r with Some k' => eqb k' k | None => false end.

(** The rows of one group. *)
Definition members (k : K) (df : list R) : list R :=
  List.filter (has_key k) df.

(** The group keys of [df.groupby(keys)], each once.  (pandas lists the
    groups in key order; nothing below depends on the order.) *)
Fixpoint group_keys (df : list R) : list K :=
  match df with
  | [] => []
  | r :: df' =>
      match key_of r with
      | Some k => k :: List.filter (fun k' => negb (eqb k' k)) (group_keys df')
      | None => group_keys df'
      end
  end.

(** [df.groupby(keys).agg(...)]: one row per group. *)
Definition groupby_agg {B} (agg : K -> list R -> B) (df : list R) : list B :=
  map (fun k => agg k (members k df)) (group_keys df).

(** The row of the right table a left merge attaches to the key [k]. *)
Definition merge_lookup {B} (key_b : B -> K) (bs : list B) (k : option K)
  : option B :=
  match k with
  | Some k => List.find (fun b => eqb (key_b b) k) bs
  | None => None
  end.

Hypothesis eqb_eq : forall k1 k2, eqb k1 k2 = true <-> k1 = k2.

Lemma in_group_keys (df : list R) (r : R) (k : K) :
  In r df -> key_of r = Some k -> In k (group_keys df).
Proof.
  induction df as [|r' df IH]; simpl; [tauto|].
  intros [->|Hin] Hk.
  - rewrite Hk. left; reflexivity.
  - specialize (IH Hin Hk).
    destruct (key_of r') as [k'|]; [|exact IH].
    destruct (eqb k k') eqn:E.
    + apply eqb_eq in E. left; congruence.
    + right. apply filter_In. rewrite E. split; [exact IH | reflexivity].
Qed.

Lemma find_group {B} (key_b : B -> K) (f : K -> B) (ks : list K) (k : K) :
  (forall k', key_b (f k') = k') ->
  In k ks ->
  List.find (fun b => eqb (key_b b) k) (map f ks) = Some (f k).
Proof.
  intros Hf. induction ks as [|k' ks IH]; simpl; [tauto|].
  intros Hin. rewrite Hf.
  destruct (eqb k' k) eqn:E.
  - apply eqb_eq in E. congruence.
  - destruct Hin as [->|Hin]; [|exact (IH Hin)].
    assert (eqb k k = true) by (apply eqb_eq; reflexivity).
    congruence.
Qed.

(** A left merge on the grouping key finds, for a row of the grouped
    table itself, the aggregate of that row's group. *)
Lemma merge_groupby {B} (key_b : B -> K) (agg : K -> list R -> B)
    (df : list R) (r : R) (k : K) :
  (forall k' g, key_b (agg k' g) = k') ->
  In r df -> key_of r = Some k ->
  merge_lookup key_b (groupby_agg agg df) (key_of r)
  = Some (agg k (members k df)).
Proof.
  intros Hkey Hin Hk. rewrite Hk. unfold merge_lookup, groupby_agg.
  apply (find_group key_b (fun k => agg k (members k df))).
  - intros k'. apply Hkey.
  - exact (in_group_keys df r k Hin Hk).
Qed.

End GroupBy.

Lemma fsum_finite (v : list float) :
  Forall (fun x => isfinite x = true) v -> exists q, fsum v = Fin q.
Proof.
  induction 1 as [|x v Hx _ [q IH]]; simpl; [eexists; reflexivity|].
  destruct x; try discriminate. rewrite IH. eexists; reflexivity.
Qed.

Lemma dropna_finite (s : list float) :
  Forall (fun x => isinf x = false) s ->
  Forall (fun x => isfinite x = true) (dropna s).
Proof.
  intros H. apply List.Forall_forall. intros x Hin.
  apply filter_In in Hin as [Hin Hn].
  rewrite List.Forall_forall in H. specialize (H x Hin).
  destruct x; simpl in *; congruence.
Qed.

Lemma series_mean_not_nan (s : list float) :
  (1 <= series_count s)%nat ->
  Forall (fun x => isinf x = false) s ->
  isnan (series_mean s) = false.
Proof.
  unfold series_count, series_mean. intros Hn Hfin.
  destruct (fsum_finite _ (dropna_finite s Hfin)) as [q Hq].
  destruct (length (dropna s)) as [|n] eqn:E; [lia|].
  simpl. rewrite Hq. unfold of_nat, fdiv.
  destruct (Qeq_bool _ 0) eqn:Hz; [|reflexivity].
  apply Qeq_bool_iff in Hz. unfold Qeq in Hz; simpl in Hz. lia.
Qed.

Lemma sort_Forall {A} (leb : A -> A -> bool) (P : A -> Prop) (l : list A) :
  Forall P l -> Forall P (sort leb l).
Proof.
  intros H. apply (Permutation_Forall (x := l)); [|exact H].
  symmetry. apply merge_sort_Permutation.
Qed.

Lemma length_sort {A} (leb : A -> A -> bool) (l : list A) :
  length (sort leb l) = length l.
Proof. apply Permutation_length, merge_sort_Permutation. Qed.

Lemma dropna_all_finite (s : list float) :
  Forall (fun x => isfinite x = true) s -> dropna s = s.
Proof.
  induction 1 as [|x s Hx _ IH]; [reflexivity|].
  unfold dropna in *. simpl. destruct x; try discriminate.
  simpl. f_equal. exact IH.
Qed.

Lemma percentile_index (n : nat) (p : Q) :
  (1 <= n)%nat -> (0 <= p)%Q -> (p <= 100)%Q ->
  (Z.to_nat (Qfloor (inject_Z (Z.of_nat n - 1) * (p / 100))) < n)%nat.
Proof.
  intros Hn H0 H100.
  set (m := (Z.of_nat n - 1)%Z).
  assert (Hm : (0 <= inject_Z m)%Q).
  { change 0%Q with (inject_Z 0). rewrite <- Zle_Qle. unfold m. lia. }
  assert (Hp : (0 <= p / 100 /\ p / 100 <= 1)%Q).
  { split.
    - apply Qle_shift_div_l; [reflexivity | lra].
    - apply Qle_shift_div_r; [reflexivity | lra]. }
  destruct Hp as [Hp0 Hp1].
  assert (Hlo : (0 <= inject_Z m * (p / 100))%Q)
    by (apply Qmult_le_0_compat; assumption).
  assert (Hhi : (inject_Z m * (p / 100) <= inject_Z m)%Q).
  { rewrite <- (Qmult_1_r (inject_Z m)) at 2.
    rewrite !(Qmult_comm (inject_Z m)).
    apply Qmult_le_compat_r; assumption. }
  apply Qfloor_resp_le in Hlo, Hhi.
  rewrite Qfloor_Z in Hhi. change (Qfloor 0) with 0%Z in Hlo.
  unfold m in *. lia.
Qed.

(** The percentile of finite values is a finite value. *)
Lemma nanpercentile_finite (s : list float) (p : Q) :
  s <> [] -> Forall (fun x => isfinite x = true) s ->
  (0 <= p)%Q -> (p <= 100)%Q ->
  exists q, nanpercentile s p = Fin q.
Proof.
  intros Hne Hfin H0 H100. unfold nanpercentile.
  rewrite (dropna_all_finite s Hfin).
  pose proof (sort_Forall sort_leb _ s Hfin) as Hv.
  pose proof (length_sort sort_leb s) as Hlen.
  destruct (sort sort_leb s) as [|x v] eqn:E.
  { destruct s; [congruence | discriminate]. }
  rewrite <- E in *. clear E x v.
  set (n := length (sort sort_leb s)) in *.
  assert (Hn : (1 <= n)%nat) by (destruct s; [congruence | simpl in *; lia]).
  pose proof (percentile_index n p Hn H0 H100) as Hidx.
  set (pos := (inject_Z (Z.of_nat n - 1) * (p / 100))%Q) in *.
  assert (Ha : isfinite (nth (Z.to_nat (Qfloor pos)) (sort sort_leb s) NaN)
               = true).
  { apply (proj1 (List.Forall_nth _ _) Hv). exact Hidx. }
  destruct (nth (Z.to_nat (Qfloor pos)) (sort sort_leb s) NaN) as [a| | |]
    eqn:Ea; try discriminate.
  assert (Hb : isfinite (nth (Z.to_nat (Qfloor pos + 1)) (sort sort_leb s)
                           (Fin a)) = true).
  { destruct (Nat.lt_ge_cases (Z.to_nat (Qfloor pos + 1)) n) as [Hlt|Hge].
    - apply (proj1 (List.Forall_nth _ _) Hv). exact Hlt.
    - rewrite nth_overflow by exact Hge. reflexivity. }
  destruct (nth (Z.to_nat (Qfloor pos + 1)) (sort sort_leb s) (Fin a))
    as [b| | |]; try discriminate.
  eexists. reflexivity.
Qed.

End Pd.

Export Pd.

(* ===================================================================== *)
(** * analysis/02_compute_anomaly_and_risk.py                             *)
(* ===================================================================== *)

Module Anomaly.

(** The population standard deviation ([ddof=0]) the specification
    speaks of. *)
Definition population_std (s : list float) : root := Sqrt (series_var 0 s).

(** ** The baseline table *)

(** A row of [timeseries.csv] with its bucket: [group] is the month or
    the day of the year of [dt], and is missing when the date did not
    parse. *)
Record obs : Type := {
  aoi_id : string;
  group : option Z;
  mean : float
}.

Definition key : Type := (string * Z)%type.

Definition key_eqb (k1 k2 : key) : bool :=
  String.eqb (fst k1) (fst k2) && Z.eqb (snd k1) (snd k2).

Definition key_of (o : obs) : option key :=
  match group o with Some g => Some (aoi_id o, g) | None => None end.

Record base_row : Type := {
  base_key : key;
  baseline_mean : float;
  baseline_std : root;
  baseline_p90 : float;
  n_obs : nat
}.

(** The grouping [df.groupby(["aoi_id", "group"])]. *)
Definition group_members (k : key) (df : list obs) : list obs :=
  members key_eqb key_of k df.

(** [.agg(baseline_mean=("mean", "mean"), baseline_std=("mean", "std"),
    baseline_p90=("mean", nanpercentile 90), n_obs=("mean", "count"))] *)
Definition agg (k : key) (g : list obs) : base_row :=
  let s := map mean g in
  {| base_key := k;
     baseline_mean := series_mean s;
     baseline_std := series_std s;
     baseline_p90 := nanpercentile s 90;
     n_obs := series_count s |}.

(** [base.loc[base["n_obs"] < min_obs_per_group, [...]] = np.nan] *)
Definition blank_small (cfg : Config) (b : base_row) : base_row :=
  if (Z.of_nat (n_obs b) <? min_obs_per_group (baseline cfg))%Z
  then {| base_key := base_key b;
          baseline_mean := NaN;
          baseline_std := Sqrt NaN;
          baseline_p90 := NaN;
          n_obs := n_obs b |}
  else b.

Definition base (cfg : Config) (df : list obs) : list base_row :=
  map (blank_small cfg) (groupby_agg key_eqb key_of agg df).

(** A row of [df2 = df.merge(base, on=["aoi_id", "group"], how="left")]
    with the columns derived from the baseline. *)
Record obs2 : Type := {
  observation : obs;
  obs_baseline_mean : float;
  obs_baseline_std : root;
  obs_baseline_p90 : float;
  anomaly : float;
  is_hot_night : bool
}.

Definition merge_row (bs : list base_row) (o : obs) : obs2 :=
  let found := merge_lookup key_eqb base_key bs (key_of o) in
  let bm := match found with Some b => baseline_mean b | None => NaN end in
  let bsd := match found with Some b => baseline_std b | None => Sqrt NaN end in
  let bp := match found with Some b => baseline_p90 b | None => NaN end in
  {| observation := o;
     obs_baseline_mean := bm;
     obs_baseline_std := bsd;
     obs_baseline_p90 := bp;
     anomaly := fsub (mean o) bm;
     is_hot_night := fltb bp (mean o) |}.

(** The part of [main] from the baseline table to [df2]. *)
Definition main_df2 (cfg : Config) (df : list obs) : list obs2 :=
  map (merge_row (base cfg df)) df.

(** ** The risk score *)

(** A row of [latest] with the columns the score reads;
    [hot_nights_14] is already [.fillna(0).astype(int)]. *)
Record latest_row : Type := {
  z : float;
  hot_nights_14 : Z;
  trend_c_per_year : float
}.

Definition Qclip (lower upper v : Q) : Q := Qmin (Qmax v lower) upper.

(** [Series.clip(lower, upper)] on one entry: [NaN] stays [NaN]. *)
Definition clip (lower upper : Q) (x : float) : float :=
  match x with
  | Fin v => Fin (Qclip lower upper v)
  | NaN => NaN
  | PInf => Fin upper
  | NInf => Fin lower
  end.

(** The column [latest["risk_score"]]. *)
Definition risk_score (latest : list latest_row) : list float :=
  let z_clip := map (fillna 0) (map (clip (-3) 6) (map z latest)) in
  let freq_score :=
    map (fun h => fmul (fdiv (of_Z h) (Fin 14)) (Fin 25))
        (map hot_nights_14 latest) in
  let trend_score :=
    map (fun x => fmul x (Fin 5))
        (map (fillna 0) (map (clip 0 5) (map trend_c_per_year latest))) in
  map (clip 0 100)
      (zip_with fadd
         (zip_with fadd (map (fun x => fmul x (Fin 10)) z_clip) freq_score)
         trend_score).

(** The score of one row. *)
Definition row_score (r : latest_row) : float :=
  clip 0 100
    (fadd
       (fadd (fmul (fillna 0 (clip (-3) 6 (z r))) (Fin 10))
             (fmul (fdiv (of_Z (hot_nights_14 r)) (Fin 14)) (Fin 25)))
       (fmul (fillna 0 (clip 0 5 (trend_c_per_year r))) (Fin 5))).

(** What an input adds to the score before its weight: the clipped value,
    and [0] for [NaN]. *)
Definition contribution (lower upper : Q) (x : float) : Q :=
  match x with
  | Fin v => Qclip lower upper v
  | NaN => 0
  | PInf => upper
  | NInf => lower
  end.

(** ** Results: the risk score *)

Lemma risk_score_rowwise (latest : list latest_row) :
  risk_score latest = map row_score latest.
Proof.
  unfold risk_score. induction latest as [|r l IH]; [reflexivity|].
  simpl in *. f_equal. exact IH.
Qed.

Lemma Qclip_range (lower upper v : Q) :
  (lower <= upper)%Q ->
  (lower <= Qclip lower upper v /\ Qclip lower upper v <= upper)%Q.
Proof.
  intros Hlu. unfold Qclip. split.
  - apply Q.min_glb; [apply Q.le_max_r | exact Hlu].
  - apply Q.le_min_r.
Qed.

Lemma clip_fillna_contribution (lower upper : Q) (x : float) :
  fillna 0 (clip lower upper x) = Fin (contribution lower upper x).
Proof. destruct x; reflexivity. Qed.

(** C3.  The score of a row is
    [clip(z, -3, 6) * 10 + hot_nights_14 / 14 * 25 + clip(trend, 0, 5) * 5]
    clipped to [[0, 100]], where a [NaN] input counts [0]; it is a number
    between 0 and 100, never [NaN], whatever [z], [hot_nights_14] and the
    trend are. *)
Theorem risk_score_formula_and_range (latest : list latest_row) (i : nat)
    (r : latest_row) :
  nth_error latest i = Some r ->
  exists q : Q,
    nth_error (risk_score latest) i = Some (Fin q)
    /\ (q == Qclip 0 100
               (contribution (-3) 6 (z r) * 10
                + inject_Z (hot_nights_14 r) / 14 * 25
                + contribution 0 5 (trend_c_per_year r) * 5))%Q
    /\ (0 <= q /\ q <= 100)%Q.
Proof.
  intros Hi. rewrite risk_score_rowwise, nth_error_map, Hi. simpl.
  unfold row_score. rewrite !clip_fillna_contribution. simpl.
  eexists. split; [reflexivity|].
  split; [reflexivity|].
  apply Qclip_range; discriminate.
Qed.

(** A [NaN] z-score or trend scores like a zero one. *)
Lemma row_score_nan_as_zero (h : Z) (x : float) :
  row_score {| z := NaN; hot_nights_14 := h; trend_c_per_year := x |}
  = row_score {| z := Fin 0; hot_nights_14 := h; trend_c_per_year := x |}
  /\ row_score {| z := x; hot_nights_14 := h; trend_c_per_year := NaN |}
     = row_score {| z := x; hot_nights_14 := h; trend_c_per_year := Fin 0 |}.
Proof. split; reflexivity. Qed.

Definition no_history : latest_row :=
  {| z := NaN; hot_nights_14 := 14; trend_c_per_year := NaN |}.

Lemma risk_score_formula_and_range_witness :
  nth_error [no_history] 0 = Some no_history
  /\ exists q : Q,
       nth_error (risk_score [no_history]) 0 = Some (Fin q)
       /\ (q == Qclip 0 100 (0 * 10 + inject_Z 14 / 14 * 25 + 0 * 5))%Q
       /\ (0 <= q /\ q <= 100)%Q.
Proof.
  split; [reflexivity|].
  exact (risk_score_formula_and_range [no_history] 0 no_history eq_refl).
Defined.

(** ** Results: the baseline *)

Lemma key_eqb_eq (k1 k2 : key) : key_eqb k1 k2 = true <-> k1 = k2.
Proof.
  destruct k1 as [a1 g1], k2 as [a2 g2]; unfold key_eqb; simpl.
  rewrite andb_true_iff, String.eqb_eq, Z.eqb_eq.
  split; [intros [-> ->]; reflexivity | intros [= -> ->]; auto].
Qed.

Lemma base_key_blank_small (cfg : Config) (b : base_row) :
  base_key (blank_small cfg b) = base_key b.
Proof. unfold blank_small. destruct (_ <? _)%Z; reflexivity. Qed.

Lemma find_base (cfg : Config) (df : list obs) (o : obs) (k : key) :
  In o df -> key_of o = Some k ->
  merge_lookup key_eqb base_key (base cfg df) (key_of o)
  = Some (blank_small cfg (agg k (group_members k df))).
Proof.
  intros Hin Hk. unfold base, groupby_agg. rewrite map_map, Hk.
  apply (find_group key_eqb key_eqb_eq base_key
           (fun k => blank_small cfg (agg k (members key_eqb key_of k df)))).
  - intros k'. rewrite base_key_blank_small. reflexivity.
  - exact (in_group_keys key_eqb key_of key_eqb_eq df o k Hin Hk).
Qed.


(** C4 (as the code has it).  Every observation with a bucket receives
    the baseline of its (AOI, bucket) group.  When the group has at least
    [min_obs_per_group] observations with a value, the fields are the
    group's mean, its sample standard deviation (pandas' [std], [ddof=1])
    and its 90th percentile, and the mean is a number as soon as the
    group has one value and no infinite one; when the group has fewer,
    all three fields are [NaN]. *)
Theorem baseline_of_group (cfg : Config) (df : list obs) (i : nat)
    (o : obs) (g : Z) :
  nth_error df i = Some o ->
  group o = Some g ->
  let vals := map mean (group_members (aoi_id o, g) df) in
  let min_obs := min_obs_per_group (baseline cfg) in
  exists r : obs2,
    nth_error (main_df2 cfg df) i = Some r
    /\ observation r = o
    /\ ((min_obs <= Z.of_nat (series_count vals))%Z ->
        obs_baseline_mean r = series_mean vals
        /\ obs_baseline_std r = series_std vals
        /\ obs_baseline_p90 r = nanpercentile vals 90
        /\ ((1 <= series_count vals)%nat ->
            Forall (fun x => isinf x = false) vals ->
            isnan (obs_baseline_mean r) = false))
    /\ ((Z.of_nat (series_count vals) < min_obs)%Z ->
        obs_baseline_mean r = NaN
        /\ obs_baseline_std r = Sqrt NaN
        /\ obs_baseline_p90 r = NaN).
Proof.
  intros Hi Hg vals min_obs.
  assert (Hk : key_of o = Some (aoi_id o, g))
    by (unfold key_of; rewrite Hg; reflexivity).
  unfold main_df2. rewrite nth_error_map, Hi. simpl.
  eexists. split; [reflexivity|].
  unfold merge_row.
  rewrite (find_base cfg df o _ (nth_error_In _ _ Hi) Hk).
  fold vals. split; [reflexivity|]. simpl.
  unfold blank_small. simpl. fold vals. fold min_obs.
  destruct (Z.of_nat (series_count vals) <? min_obs)%Z eqn:E; simpl.
  - apply Z.ltb_lt in E. split; [lia | auto].
  - apply Z.ltb_ge in E. split; [|lia].
    intros _. repeat split; try reflexivity.
    apply series_mean_not_nan.
Qed.

Definition month_min5 : Config := {|
  nodata_below := None;
  nodata_equals := None;
  value_transform := {| type := "identity"; scale := None; offset := None |};
  stats := ["mean"];
  quality := default_quality;
  baseline := {| grouping := "month"; min_obs_per_group := 5 |}
|}.

(** Five January observations of one AOI: 1, 2, 3, 4 and 5 degrees. *)
Definition january : list obs :=
  map (fun m => {| aoi_id := "aoi_mid"; group := Some 1%Z; mean := Fin m |})
      [1%Q; 2%Q; 3%Q; 4%Q; 5%Q].

Lemma baseline_of_group_witness :
  (nth_error january 0
   = Some {| aoi_id := "aoi_mid"; group := Some 1%Z; mean := Fin 1 |}
   /\ Some 1%Z = Some 1%Z)
  /\ exists r : obs2,
       nth_error (main_df2 month_min5 january) 0 = Some r
       /\ obs_baseline_mean r = series_mean (map mean january).
Proof.
  split; [split; reflexivity|].
  destruct (baseline_of_group month_min5 january 0
              {| aoi_id := "aoi_mid"; group := Some 1%Z; mean := Fin 1 |}
              1%Z eq_refl eq_refl) as (r & Hr & _ & Hge & _).
  exists r. split; [exact Hr|].
  apply Hge. vm_compute. discriminate.
Defined.

(** C4 does not hold as stated: on the five observations above (the
    default minimum), the baseline standard deviation is [sqrt (5/2)],
    the sample one, where the population standard deviation is
    [sqrt 2]. *)
Lemma baseline_std_is_sample_std :
  Forall (fun r => root_eq (obs_baseline_std r) (Sqrt (Fin (5 # 2))))
         (main_df2 month_min5 january)
  /\ length (main_df2 month_min5 january) = 5%nat
  /\ root_eq (population_std (map mean january)) (Sqrt (Fin 2))
  /\ ~ root_eq (Sqrt (Fin (5 # 2))) (Sqrt (Fin 2)).
Proof.
  split; [vm_compute; repeat constructor|].
  split; [reflexivity|].
  split; [vm_compute; reflexivity|].
  vm_compute. discriminate.
Qed.

End Anomaly.

(* ===================================================================== *)
(** * analysis/30_collapse_and_filter_observations.py                     *)
(* ===================================================================== *)

Module Collapse.

(** A row of [collapsed]: one AOI at one timestamp, with the pixel count
    summed over its tiles.  (The other columns are carried along
    unchanged.) *)
Record collapsed_row : Type := {
  aoi_id : string;
  pixels : float
}.

Record Args : Type := {
  min_abs_pixels : Q;
  min_frac_of_p95 : Q
}.

(** The defaults of the command line. *)
Definition default_args : Args :=
  {| min_abs_pixels := 5; min_frac_of_p95 := 1 # 4 |}.

Record p95_row : Type := {
  p95_aoi_id : string;
  p95_pixels : float
}.

Definition key_of (r : collapsed_row) : option string := Some (aoi_id r).

(** The observations of one AOI. *)
Definition aoi_rows (a : string) (collapsed : list collapsed_row)
  : list collapsed_row :=
  members String.eqb key_of a collapsed.

(** [collapsed.groupby("aoi_id").agg(p95_pixels=("pixels",
    nanpercentile 95))] *)
Definition p95 (collapsed : list collapsed_row) : list p95_row :=
  groupby_agg String.eqb key_of
    (fun a g => {| p95_aoi_id := a;
                   p95_pixels := nanpercentile (map pixels g) 95 |})
    collapsed.

(** [np.maximum(a, b)]: the larger one, [NaN] if either is [NaN]. *)
Definition fmaximum (a b : float) : float :=
  match a, b with
  | NaN, _ | _, NaN => NaN
  | _, _ => if fleb a b then b else a
  end.

Record usable_row : Type := {
  collapsed_obs : collapsed_row;
  obs_p95_pixels : float;
  min_pixels_threshold : float;
  is_usable : bool
}.

(** The part of [main] from [collapsed] to [usable]. *)
Definition main_usable (args : Args) (collapsed : list collapsed_row)
  : list usable_row :=
  let table := p95 collapsed in
  map (fun r =>
         let p :=
           match merge_lookup String.eqb p95_aoi_id table (key_of r) with
           | Some b => p95_pixels b
           | None => NaN
           end in
         let threshold :=
           fmaximum (Fin (min_abs_pixels args))
                    (fmul (Fin (min_frac_of_p95 args)) (fillna 0 p)) in
         {| collapsed_obs := r;
            obs_p95_pixels := p;
            min_pixels_threshold := threshold;
            is_usable := fleb threshold (fillna 0 (pixels r)) |})
      collapsed.

(** Nine observations of 50 pixels and one of 2 pixels, for one AOI. *)
Definition ten_observations : list collapsed_row :=
  map (fun n => {| aoi_id := "aoi_mid"; pixels := of_Z n |})
      [50; 50; 50; 50; 50; 50; 50; 50; 50; 2]%Z.

(** ** Results *)

Lemma lookup_p95 (collapsed : list collapsed_row) (r : collapsed_row) :
  In r collapsed ->
  merge_lookup String.eqb p95_aoi_id (p95 collapsed) (key_of r)
  = Some {| p95_aoi_id := aoi_id r;
            p95_pixels :=
              nanpercentile (map pixels (aoi_rows (aoi_id r) collapsed)) 95 |}.
Proof.
  intros Hin. unfold p95, aoi_rows.
  apply (merge_groupby String.eqb key_of String.eqb_eq p95_aoi_id
           (fun a g => {| p95_aoi_id := a;
                          p95_pixels := nanpercentile (map pixels g) 95 |})).
  - reflexivity.
  - exact Hin.
  - reflexivity.
Qed.

Lemma in_aoi_rows (collapsed : list collapsed_row) (r : collapsed_row) :
  In r collapsed -> In r (aoi_rows (aoi_id r) collapsed).
Proof.
  intros Hin. unfold aoi_rows, members. apply filter_In. split; [exact Hin|].
  unfold has_key, key_of. apply String.eqb_refl.
Qed.

Lemma fmaximum_finite (a b : Q) :
  exists t, fmaximum (Fin a) (Fin b) = Fin t /\ (t == Qmax a b)%Q.
Proof.
  unfold fmaximum, fleb. destruct (Qle_bool a b) eqn:E.
  - exists b. split; [reflexivity|].
    apply Qle_bool_iff in E. symmetry. apply Q.max_r, E.
  - exists a. split; [reflexivity|].
    assert (~ (a <= b)%Q) by (rewrite <- Qle_bool_iff; congruence).
    symmetry. apply Q.max_l. lra.
Qed.

(** The threshold and the flag of every row of [usable]. *)
Lemma usable_row_spec (args : Args) (collapsed : list collapsed_row)
    (i : nat) (r : collapsed_row) :
  nth_error collapsed i = Some r ->
  let counts := map pixels (aoi_rows (aoi_id r) collapsed) in
  exists u : usable_row,
    nth_error (main_usable args collapsed) i = Some u
    /\ collapsed_obs u = r
    /\ min_pixels_threshold u
       = fmaximum (Fin (min_abs_pixels args))
           (fmul (Fin (min_frac_of_p95 args))
                 (fillna 0 (nanpercentile counts 95)))
    /\ is_usable u = fleb (min_pixels_threshold u) (fillna 0 (pixels r))
    /\ (Forall (fun x => isfinite x = true) counts ->
        exists p95 t px : Q,
          nanpercentile counts 95 = Fin p95
          /\ min_pixels_threshold u = Fin t
          /\ (t == Qmax (min_abs_pixels args)
                        (min_frac_of_p95 args * p95))%Q
          /\ pixels r = Fin px
          /\ (is_usable u = true <-> (t <= px)%Q)).
Proof.
  intros Hi counts. pose proof (nth_error_In _ _ Hi) as Hin.
  unfold main_usable. rewrite nth_error_map, Hi. unfold option_map.
  rewrite (lookup_p95 collapsed r Hin). cbn [p95_pixels]. fold counts.
  eexists. split; [reflexivity|]. cbn [collapsed_obs min_pixels_threshold
                                       is_usable].
  repeat (split; [reflexivity|]).
  intros Hfin.
  assert (Hr : In (pixels r) counts)
    by (apply in_map, in_aoi_rows, Hin).
  destruct (nanpercentile_finite counts 95) as [p95v Hp];
    [destruct counts; [destruct Hr | discriminate] | exact Hfin
     | discriminate | discriminate |].
  rewrite Hp. cbn [fillna fmul].
  destruct (fmaximum_finite (min_abs_pixels args)
              (min_frac_of_p95 args * p95v)) as (t & Ht & Hmax).
  rewrite Ht.
  rewrite List.Forall_forall in Hfin. specialize (Hfin _ Hr).
  destruct (pixels r) as [px| | |]; try discriminate.
  exists p95v, t, px. repeat (split; [reflexivity || exact Hmax|]).
  simpl. apply Qle_bool_iff.
Qed.

(** C9.  For every collapsed observation the threshold is
    [max(min_abs_pixels, min_frac_of_p95 * p95)], with [p95] the 95th
    percentile of the pixel counts of that observation's AOI, and the
    observation is usable exactly when its pixel count reaches the
    threshold.  With counts [[50]*9 + [2]] and the default 5 and 0.25,
    the nine 50-pixel observations are usable and the 2-pixel one is
    not. *)
Theorem usability_threshold :
  (forall (args : Args) (collapsed : list collapsed_row) (i : nat)
          (r : collapsed_row),
      nth_error collapsed i = Some r ->
      Forall (fun x => isfinite x = true)
             (map pixels (aoi_rows (aoi_id r) collapsed)) ->
      exists (u : usable_row) (p95 t px : Q),
        nth_error (main_usable args collapsed) i = Some u
        /\ nanpercentile (map pixels (aoi_rows (aoi_id r) collapsed)) 95
           = Fin p95
        /\ min_pixels_threshold u = Fin t
        /\ (t == Qmax (min_abs_pixels args) (min_frac_of_p95 args * p95))%Q
        /\ pixels r = Fin px
        /\ (is_usable u = true <-> (t <= px)%Q))
  /\ map pixels ten_observations
     = map of_Z [50; 50; 50; 50; 50; 50; 50; 50; 50; 2]%Z
  /\ map is_usable (main_usable default_args ten_observations)
     = [true; true; true; true; true; true; true; true; true; false].
Proof.
  split.
  - intros args collapsed i r Hi Hfin.
    destruct (usable_row_spec args collapsed i r Hi)
      as (u & Hu & _ & _ & _ & Hq).
    destruct (Hq Hfin) as (p95v & t & px & H).
    exists u, p95v, t, px. split; [exact Hu | exact H].
  - split; [reflexivity | vm_compute; reflexivity].
Qed.

End Collapse.

(* ===================================================================== *)
(** * analysis/34_match_controls_by_covariates.py                         *)
(* ===================================================================== *)

Module Matching.

Record MatchResult : Type := {
  data_center_aoi_id : string;
  control_aoi_id : string;
  buffer_m : Q;
  match_rank : nat;
  distance : root
}.

(** The command line: [--k], [--no_reuse] and the feature columns. *)
Record Args : Type := {
  k : Z;
  no_reuse : bool;
  features : list string
}.

(** A row of [df = meta.merge(cov)]: [covariates] are the values of the
    feature columns, in the order of [features], after
    [pd.to_numeric(errors="coerce")] (so a missing or unreadable value is
    [NaN]); [aoi_buffer_m] is missing when the column holds [NaN].
    scikit-learn accepts [NaN] but neither an infinite value nor an empty
    list of features: the model covers tables it accepts. *)
Record aoi : Type := {
  aoi_id : string;
  is_data_center : Z;
  aoi_buffer_m : option Q;
  covariates : list float
}.

(** ** Standardised distances *)

(** Column [f] of a feature matrix. *)
Definition column (f : nat) (X : list (list float)) : list float :=
  map (fun x => nth f x NaN) X.

(** [StandardScaler().fit(X_all)]: per feature the mean and the
    (population) variance of the values that are not [NaN]. *)
Definition scaler_fit (n : nat) (X_all : list (list float))
  : list (float * float) :=
  map (fun f => (series_mean (column f X_all), series_var 0 (column f X_all)))
      (seq 0 n).

(** The square of the scale: scikit-learn scales a constant feature
    by 1. *)
Definition scale_sq (var : float) : float :=
  if feqb var (Fin 0) then Fin 1 else var.

(** [((x - mean) / scale - (y - mean) / scale) ** 2] for one feature, with
    [scale = sqrt(var)]: the root cancels in the square. *)
Definition sq_diff (mv : float * float) (x y : float) : float :=
  let d := fsub (fsub x (fst mv)) (fsub y (fst mv)) in
  fdiv (fmul d d) (scale_sq (snd mv)).

(** One entry of
    [((X_dc_s[:, None, :] - X_ctrl_s[None, :, :]) ** 2).sum(axis=2) ** 0.5]. *)
Definition dist_entry (fit : list (float * float)) (x_dc x_ctrl : list float)
  : root :=
  Sqrt (fsum (map (fun '(f, mv) => sq_diff mv (nth f x_dc NaN)
                                     (nth f x_ctrl NaN))
                  (combine (seq 0 (length fit)) fit))).

(** The matrix [dist]: a row per data center, a column per control. *)
Definition dist_matrix (n : nat) (X_dc X_ctrl : list (list float))
  : list (list root) :=
  let fit := scaler_fit n (X_ctrl ++ X_dc) in
  map (fun x_dc => map (dist_entry fit x_dc) X_ctrl) X_dc.

(** ** The greedy selection *)

(** The order of distances: by the radicand, [NaN] last, as [np.argsort]
    orders the roots. *)
Definition dist_leb (a b : root) : bool :=
  sort_leb (radicand a) (radicand b).

(** [np.argsort(row)] *)
Definition argsort (row : list root) : list nat :=
  map fst (sort (fun a b => dist_leb (snd a) (snd b))
                (combine (seq 0 (length row)) row)).

(** The loop [for j in order] for one data center; [picked] and [rank]
    are the two counters of the source. *)
Fixpoint pick (args : Args) (dc_id : string) (buffer : Q)
    (ctrl_ids : list string) (row : list root) (order : list nat)
    (picked rank : nat) (used_controls : gset string)
  : list MatchResult * gset string :=
  match order with
  | [] => ([], used_controls)
  | j :: order' =>
      let c_id := nth j ctrl_ids "" in
      if no_reuse args && bool_decide (c_id ∈ used_controls)
      then pick args dc_id buffer ctrl_ids row order' picked rank
             used_controls
      else
        let r := {| data_center_aoi_id := dc_id;
                    control_aoi_id := c_id;
                    buffer_m := buffer;
                    match_rank := rank;
                    distance := nth j row (Sqrt NaN) |} in
        let used_controls := {[ c_id ]} ∪ used_controls in
        let picked := S picked in
        let rank := S rank in
        if (k args <=? Z.of_nat picked)%Z then ([r], used_controls)
        else
          let '(rs, used_controls) :=
            pick args dc_id buffer ctrl_ids row order' picked rank
              used_controls in
          (r :: rs, used_controls)
  end.

(** The loop over the data centers of one buffer group. *)
Fixpoint match_dcs (args : Args) (buffer : Q) (ctrl_ids : list string)
    (dcs : list (string * list root)) (used_controls : gset string)
  : list MatchResult * gset string :=
  match dcs with
  | [] => ([], used_controls)
  | (dc_id, row) :: dcs' =>
      let '(rs, used_controls) :=
        pick args dc_id buffer ctrl_ids row (argsort row) 0 0
          used_controls in
      let '(rs', used_controls) :=
        match_dcs args buffer ctrl_ids dcs' used_controls in
      (rs ++ rs', used_controls)
  end.

(** A buffer group as the loop sees it, once the distances are there. *)
Record buffer_group : Type := {
  group_buffer_m : Q;
  group_ctrl_ids : list string;
  group_dcs : list (string * list root)
}.

(** The head of the loop body for one group: [None] when the group is
    skipped ([dcs.empty or ctrls.empty]). *)
Definition prepare_group (args : Args) (buffer : Q) (g : list aoi)
  : option buffer_group :=
  let dcs := List.filter (fun r => (is_data_center r =? 1)%Z) g in
  let ctrls := List.filter (fun r => (is_data_center r =? 0)%Z) g in
  match dcs, ctrls with
  | [], _ | _, [] => None
  | _, _ =>
      let dist := dist_matrix (length (features args))
                    (map covariates dcs) (map covariates ctrls) in
      Some {| group_buffer_m := buffer;
              group_ctrl_ids := map aoi_id ctrls;
              group_dcs := combine (map aoi_id dcs) dist |}
  end.

(** [df.groupby("buffer_m")]: the groups in ascending order of the
    buffer; rows without a buffer are in none. *)
Definition buffer_groups (args : Args) (df : list aoi)
  : list (option buffer_group) :=
  map (fun b => prepare_group args b (members Qeq_bool aoi_buffer_m b df))
      (sort Qle_bool (group_keys Qeq_bool aoi_buffer_m df)).

(** The loop over the buffer groups: [used_controls] is created once,
    before the loop, and handed from group to group. *)
Fixpoint main_loop (args : Args) (groups : list (option buffer_group))
    (used_controls : gset string) : list MatchResult * gset string :=
  match groups with
  | [] => ([], used_controls)
  | None :: groups' => main_loop args groups' used_controls
  | Some g :: groups' =>
      let '(rs, used_controls) :=
        match_dcs args (group_buffer_m g) (group_ctrl_ids g) (group_dcs g)
          used_controls in
      let '(rs', used_controls) := main_loop args groups' used_controls in
      (rs ++ rs', used_controls)
  end.

(** The rows of [matched_controls.csv]. *)
Definition main (args : Args) (df : list aoi) : list MatchResult :=
  fst (main_loop args (buffer_groups args df) ∅).

(** ** Results: the candidate order *)

Lemma sort_leb_total (x y : float) :
  sort_leb x y = true \/ sort_leb y x = true.
Proof.
  destruct x as [a| | |], y as [b| | |]; simpl; auto.
  destruct (Qlt_le_dec a b) as [H|H]; [left | right];
    apply Qle_bool_iff; lra.
Qed.

Lemma sort_leb_trans (x y z : float) :
  sort_leb x y = true -> sort_leb y z = true -> sort_leb x z = true.
Proof.
  destruct x as [a| | |], y as [b| | |], z as [c| | |]; simpl;
    try discriminate; try reflexivity.
  rewrite !Qle_bool_iff. intros. lra.
Qed.

Definition by_distance (a b : nat * root) : bool :=
  dist_leb (snd a) (snd b).

#[local] Instance by_distance_total : Total (leb_rel by_distance).
Proof. intros a b. apply sort_leb_total. Qed.

#[local] Instance by_distance_trans : Transitive (leb_rel by_distance).
Proof. intros a b c. apply sort_leb_trans. Qed.

Lemma StronglySorted_map_in {A B} (f : A -> B) (R1 : relation A)
    (R2 : relation B) (l : list A) :
  (forall x y, In x l -> In y l -> R1 x y -> R2 (f x) (f y)) ->
  StronglySorted R1 l -> StronglySorted R2 (map f l).
Proof.
  intros Hf Hs. induction Hs as [|x l Hs IH Hx]; simpl; constructor.
  - apply IH. intros a b Ha Hb. apply Hf; right; assumption.
  - apply List.Forall_forall. intros y Hy.
    apply in_map_iff in Hy as (a & <- & Ha).
    rewrite List.Forall_forall in Hx.
    apply Hf; [left; reflexivity | right; exact Ha | apply Hx, Ha].
Qed.

Lemma in_combine_seq {A} (l : list A) (d : A) (s i : nat) (x : A) :
  In (i, x) (combine (seq s (length l)) l) -> nth (i - s) l d = x.
Proof.
  revert s. induction l as [|y l IH]; simpl; intros s; [tauto|].
  intros [[= <- <-]|Hin].
  - rewrite Nat.sub_diag. reflexivity.
  - assert (Hs : (S s <= i)%nat).
    { apply in_combine_l, in_seq in Hin. lia. }
    specialize (IH (S s) Hin).
    replace (i - s)%nat with (S (i - S s)) by lia. exact IH.
Qed.

(** The distances read along [np.argsort(row)] never decrease. *)
Lemma argsort_sorted (row : list root) :
  StronglySorted
    (fun i j => dist_leb (nth i row (Sqrt NaN)) (nth j row (Sqrt NaN)) = true)
    (argsort row).
Proof.
  unfold argsort, sort.
  set (pairs := combine (seq 0 (length row)) row).
  apply (StronglySorted_map_in fst (leb_rel by_distance)).
  - intros [i x] [j y] Hi Hj Hxy; simpl.
    assert (Hin : forall p, In p (merge_sort (leb_rel by_distance) pairs) ->
                            In p pairs).
    { intros p Hp. apply list_elem_of_In.
      rewrite <- (merge_sort_Permutation (leb_rel by_distance) pairs).
      apply list_elem_of_In, Hp. }
    apply Hin, (in_combine_seq row (Sqrt NaN)) in Hi, Hj.
    rewrite Nat.sub_0_r in Hi, Hj. rewrite Hi, Hj. exact Hxy.
  - apply StronglySorted_merge_sort; typeclasses eauto.
Qed.

(** ** Results: the set of used controls *)

Definition controls (rs : list MatchResult) : list string :=
  map control_aoi_id rs.

(** What a stretch of the run does to [used_controls]: the set only
    grows, every control it emits is in the set afterwards, and under
    [--no_reuse] the controls it emits were not in the set before and are
    pairwise distinct. *)
Definition stretch (args : Args) (used : gset string)
    (run : list MatchResult * gset string) : Prop :=
  used ⊆ snd run
  /\ (forall c, c ∈ controls (fst run) -> c ∈ snd run)
  /\ (no_reuse args = true ->
      (forall c, c ∈ controls (fst run) -> c ∉ used)
      /\ NoDup (controls (fst run))).

Lemma stretch_nil (args : Args) (used : gset string) :
  stretch args used ([], used).
Proof.
  unfold stretch, controls; simpl. split; [set_solver|].
  split; [set_solver|]. intros _. split; [set_solver | constructor].
Qed.

Lemma stretch_app (args : Args) (used used1 used2 : gset string)
    (rs1 rs2 : list MatchResult) :
  stretch args used (rs1, used1) ->
  stretch args used1 (rs2, used2) ->
  stretch args used (rs1 ++ rs2, used2).
Proof.
  unfold stretch, controls; simpl.
  intros (Hs1 & Hin1 & Hnr1) (Hs2 & Hin2 & Hnr2).
  split; [exact (transitivity Hs1 Hs2)|].
  split.
  - intros c. rewrite map_app, elem_of_app. intros [H|H]; [|auto].
    apply Hs2, Hin1, H.
  - intros Hnr. destruct (Hnr1 Hnr) as [Hout1 Hnd1].
    destruct (Hnr2 Hnr) as [Hout2 Hnd2]. split.
    + intros c. rewrite map_app, elem_of_app. intros [H|H]; [auto|].
      intros Hc. apply (Hout2 c H), Hs1, Hc.
    + rewrite map_app. apply NoDup_app. split; [exact Hnd1|].
      split; [|exact Hnd2].
      intros c Hc1 Hc2. apply (Hout2 c Hc2), Hin1, Hc1.
Qed.

Lemma pick_stretch (args : Args) (dc_id : string) (buffer : Q)
    (ctrl_ids : list string) (row : list root) (order : list nat)
    (picked rank : nat) (used : gset string) :
  stretch args used
    (pick args dc_id buffer ctrl_ids row order picked rank used).
Proof.
  revert picked rank used.
  induction order as [|j order IH]; intros picked rank used; simpl.
  { apply stretch_nil. }
  set (c := nth j ctrl_ids "").
  destruct (no_reuse args && bool_decide (c ∈ used)) eqn:Hskip.
  { apply IH. }
  set (r := {| data_center_aoi_id := dc_id; control_aoi_id := c;
               buffer_m := buffer; match_rank := rank;
               distance := nth j row (Sqrt NaN) |}).
  assert (Hone : stretch args used ([r], {[c]} ∪ used)).
  { unfold stretch, controls; simpl. split; [apply union_subseteq_r|].
    split.
    - intros c0 ->%list_elem_of_singleton.
      apply elem_of_union_l, elem_of_singleton. reflexivity.
    - intros Hnr. rewrite Hnr in Hskip; simpl in Hskip.
      apply bool_decide_eq_false in Hskip.
      split; [|apply NoDup_singleton].
      intros c0 ->%list_elem_of_singleton. exact Hskip. }
  destruct (k args <=? Z.of_nat (S picked))%Z; [exact Hone|].
  specialize (IH (S picked) (S rank) ({[c]} ∪ used)).
  destruct (pick args dc_id buffer ctrl_ids row order (S picked) (S rank)
              ({[c]} ∪ used)) as [rs used'].
  exact (stretch_app args used _ used' [r] rs Hone IH).
Qed.

Lemma match_dcs_stretch (args : Args) (buffer : Q) (ctrl_ids : list string)
    (dcs : list (string * list root)) (used : gset string) :
  stretch args used (match_dcs args buffer ctrl_ids dcs used).
Proof.
  revert used. induction dcs as [|[dc_id row] dcs IH]; intros used; simpl.
  { apply stretch_nil. }
  pose proof (pick_stretch args dc_id buffer ctrl_ids row (argsort row)
                0 0 used) as H1.
  destruct (pick args dc_id buffer ctrl_ids row (argsort row) 0 0 used)
    as [rs used1].
  specialize (IH used1).
  destruct (match_dcs args buffer ctrl_ids dcs used1) as [rs' used2].
  exact (stretch_app args used used1 used2 rs rs' H1 IH).
Qed.

Lemma main_loop_stretch (args : Args) (groups : list (option buffer_group))
    (used : gset string) :
  stretch args used (main_loop args groups used).
Proof.
  revert used. induction groups as [|[g|] groups IH]; intros used; simpl.
  - apply stretch_nil.
  - pose proof (match_dcs_stretch args (group_buffer_m g) (group_ctrl_ids g)
                  (group_dcs g) used) as H1.
    destruct (match_dcs args (group_buffer_m g) (group_ctrl_ids g)
                (group_dcs g) used) as [rs used1].
    specialize (IH used1).
    destruct (main_loop args groups used1) as [rs' used2].
    exact (stretch_app args used used1 used2 rs rs' H1 IH).
  - apply IH.
Qed.

Lemma main_loop_app (args : Args) (groups1 groups2 : list (option buffer_group))
    (used : gset string) :
  main_loop args (groups1 ++ groups2) used
  = let '(rs1, used1) := main_loop args groups1 used in
    let '(rs2, used2) := main_loop args groups2 used1 in
    (rs1 ++ rs2, used2).
Proof.
  revert used. induction groups1 as [|[g|] groups1 IH]; intros used; simpl.
  - destruct (main_loop args groups2 used); reflexivity.
  - destruct (match_dcs args (group_buffer_m g) (group_ctrl_ids g)
                (group_dcs g) used) as [rs used1].
    rewrite IH.
    destruct (main_loop args groups1 used1) as [rs1 used2].
    destruct (main_loop args groups2 used2) as [rs2 used3].
    rewrite app_assoc. reflexivity.
  - apply IH.
Qed.

(** C10.  The set of used controls is one set for the whole run: a run
    over the buffer groups [groups1 ++ groups2] is the run over [groups1]
    followed by the run over [groups2] started from the set [groups1]
    left behind.  Every control matched in [groups1] is in that set, and
    with [--no_reuse] no control of that set is matched in [groups2]. *)
Theorem used_controls_shared_across_buffers (args : Args)
    (groups1 groups2 : list (option buffer_group)) (used : gset string) :
  let run1 := main_loop args groups1 used in
  let run2 := main_loop args groups2 (snd run1) in
  main_loop args (groups1 ++ groups2) used
  = (fst run1 ++ fst run2, snd run2)
  /\ (forall c, c ∈ controls (fst run1) -> c ∈ snd run1)
  /\ (no_reuse args = true ->
      forall c, c ∈ snd run1 -> c ∉ controls (fst run2)).
Proof.
  intros run1 run2.
  pose proof (main_loop_stretch args groups1 used) as (_ & Hin1 & _).
  pose proof (main_loop_stretch args groups2 (snd run1)) as (_ & _ & Hnr2).
  fold run1 in Hin1. fold run2 in Hnr2.
  split; [|split].
  - rewrite main_loop_app. fold run1.
    destruct run1 as [rs1 used1] eqn:E1. simpl in run2. subst run2.
    destruct (main_loop args groups2 used1); reflexivity.
  - exact Hin1.
  - intros Hnr c Hc Hc2. destruct (Hnr2 Hnr) as [Hout _].
    exact (Hout c Hc2 Hc).
Qed.

(** ** Results: the matches of one data center *)

Definition dist_le (a b : root) : Prop := dist_leb a b = true.

(** The records emitted for the data center [dc_id] of the group
    [buffer]: ranks [0, 1, ..., m-1] with [m <= k], in an order in which
    the distance never decreases. *)
Definition block_ok (args : Args) (treatment : string * Q)
    (b : list MatchResult) : Prop :=
  Forall (fun r => data_center_aoi_id r = fst treatment
                   /\ buffer_m r = snd treatment) b
  /\ map match_rank b = seq 0 (length b)
  /\ (Z.of_nat (length b) <= k args)%Z
  /\ StronglySorted dist_le (map distance b).

Lemma pick_block (args : Args) (dc_id : string) (buffer : Q)
    (ctrl_ids : list string) (row : list root) (order : list nat)
    (picked rank : nat) (used : gset string) (b : list MatchResult) :
  b = fst (pick args dc_id buffer ctrl_ids row order picked rank used) ->
  Forall (fun r => data_center_aoi_id r = dc_id /\ buffer_m r = buffer
                   /\ exists j, In j order
                                /\ distance r = nth j row (Sqrt NaN)) b
  /\ map match_rank b = seq rank (length b)
  /\ ((Z.of_nat picked < k args)%Z ->
      (Z.of_nat (picked + length b) <= k args)%Z).
Proof.
  revert picked rank used b.
  induction order as [|j order IH]; intros picked rank used b ->; simpl.
  { split; [constructor | split; [reflexivity | lia]]. }
  destruct (no_reuse args && bool_decide (nth j ctrl_ids "" ∈ used)).
  { destruct (IH picked rank used _ eq_refl) as (Hall & Hrank & Hlen).
    split; [|split; [exact Hrank | exact Hlen]].
    eapply List.Forall_impl; [|exact Hall].
    intros r (? & ? & i & ? & ?). eauto 6. }
  destruct (k args <=? Z.of_nat (S picked))%Z eqn:Hk; simpl.
  { split; [|split; [reflexivity | lia]].
    constructor; [|constructor]. simpl. eauto 6. }
  specialize (IH (S picked) (S rank) ({[nth j ctrl_ids ""]} ∪ used) _ eq_refl).
  destruct (pick args dc_id buffer ctrl_ids row order (S picked) (S rank)
              ({[nth j ctrl_ids ""]} ∪ used)) as [rs used'].
  simpl in *. destruct IH as (Hall & Hrank & Hlen).
  apply Z.leb_gt in Hk.
  split; [|split].
  - constructor; [simpl; eauto 6|].
    eapply List.Forall_impl; [|exact Hall].
    intros r (? & ? & i & ? & ?). eauto 6.
  - rewrite Hrank. reflexivity.
  - intros _. specialize (Hlen Hk). lia.
Qed.

Lemma pick_sorted (args : Args) (dc_id : string) (buffer : Q)
    (ctrl_ids : list string) (row : list root) (order : list nat)
    (picked rank : nat) (used : gset string) :
  StronglySorted
    (fun i j => dist_le (nth i row (Sqrt NaN)) (nth j row (Sqrt NaN))) order ->
  StronglySorted dist_le
    (map distance
       (fst (pick args dc_id buffer ctrl_ids row order picked rank used))).
Proof.
  intros Hs. revert picked rank used.
  induction Hs as [|j order Hs IH Hj]; intros picked rank used; simpl.
  { constructor. }
  destruct (no_reuse args && bool_decide (nth j ctrl_ids "" ∈ used)).
  { apply IH. }
  destruct (k args <=? Z.of_nat (S picked))%Z; simpl.
  { repeat constructor. }
  pose proof (pick_block args dc_id buffer ctrl_ids row order (S picked)
                (S rank) ({[nth j ctrl_ids ""]} ∪ used) _ eq_refl)
    as (Hall & _).
  specialize (IH (S picked) (S rank) ({[nth j ctrl_ids ""]} ∪ used)).
  destruct (pick args dc_id buffer ctrl_ids row order (S picked) (S rank)
              ({[nth j ctrl_ids ""]} ∪ used)) as [rs used'].
  simpl in *. constructor; [exact IH|].
  rewrite List.Forall_forall in Hall, Hj. apply List.Forall_forall.
  intros d Hd. apply in_map_iff in Hd as (r & <- & Hr).
  destruct (Hall r Hr) as (_ & _ & i & Hi & ->). apply Hj, Hi.
Qed.

Lemma match_dc_block (args : Args) (dc_id : string) (buffer : Q)
    (ctrl_ids : list string) (row : list root) (used : gset string) :
  (1 <= k args)%Z ->
  block_ok args (dc_id, buffer)
    (fst (pick args dc_id buffer ctrl_ids row (argsort row) 0 0 used)).
Proof.
  intros Hk.
  pose proof (pick_block args dc_id buffer ctrl_ids row (argsort row) 0 0
                used _ eq_refl) as (Hall & Hrank & Hlen).
  pose proof (pick_sorted args dc_id buffer ctrl_ids row (argsort row) 0 0
                used (argsort_sorted row)) as Hsorted.
  unfold block_ok; simpl. repeat split.
  - eapply List.Forall_impl; [|exact Hall]. intros r (? & ? & _). auto.
  - exact Hrank.
  - apply Hlen. lia.
  - exact Hsorted.
Qed.

(** The data centers the run goes through, in order, each with the
    buffer of its group. *)
Definition treatments_of (g : buffer_group) : list (string * Q) :=
  map (fun dc => (fst dc, group_buffer_m g)) (group_dcs g).

Fixpoint treatments (groups : list (option buffer_group))
  : list (string * Q) :=
  match groups with
  | [] => []
  | None :: groups' => treatments groups'
  | Some g :: groups' => treatments_of g ++ treatments groups'
  end.

Lemma match_dcs_blocks (args : Args) (buffer : Q) (ctrl_ids : list string)
    (dcs : list (string * list root)) (used : gset string) :
  (1 <= k args)%Z ->
  exists blocks,
    fst (match_dcs args buffer ctrl_ids dcs used) = concat blocks
    /\ Forall2 (block_ok args) (map (fun dc => (fst dc, buffer)) dcs) blocks.
Proof.
  intros Hk. revert used.
  induction dcs as [|[dc_id row] dcs IH]; intros used; simpl.
  { exists []. split; [reflexivity | constructor]. }
  pose proof (match_dc_block args dc_id buffer ctrl_ids row used Hk) as Hb.
  destruct (pick args dc_id buffer ctrl_ids row (argsort row) 0 0 used)
    as [rs used1].
  destruct (IH used1) as (blocks & Hcat & Hall).
  destruct (match_dcs args buffer ctrl_ids dcs used1) as [rs' used2].
  simpl in *. exists (rs :: blocks). split.
  - simpl. rewrite Hcat. reflexivity.
  - constructor; assumption.
Qed.

Lemma main_loop_blocks (args : Args) (groups : list (option buffer_group))
    (used : gset string) :
  (1 <= k args)%Z ->
  exists blocks,
    fst (main_loop args groups used) = concat blocks
    /\ Forall2 (block_ok args) (treatments groups) blocks.
Proof.
  intros Hk. revert used.
  induction groups as [|[g|] groups IH]; intros used; simpl.
  - exists []. split; [reflexivity | constructor].
  - destruct (match_dcs_blocks args (group_buffer_m g) (group_ctrl_ids g)
                (group_dcs g) used Hk) as (blocks1 & Hcat1 & Hall1).
    destruct (match_dcs args (group_buffer_m g) (group_ctrl_ids g)
                (group_dcs g) used) as [rs used1].
    destruct (IH used1) as (blocks2 & Hcat2 & Hall2).
    destruct (main_loop args groups used1) as [rs' used2].
    simpl in *. exists (blocks1 ++ blocks2). split.
    + rewrite concat_app, Hcat1, Hcat2. reflexivity.
    + apply Forall2_app; assumption.
  - apply IH.
Qed.

(** The (data center, buffer) a record belongs to. *)
Definition treatment_of (r : MatchResult) : string * Q :=
  (data_center_aoi_id r, buffer_m r).

#[export] Instance Q_eq_dec : EqDecision Q.
Proof. solve_decision. Defined.

(** The records of the output that belong to one treatment. *)
Definition records_of (t : string * Q) (rs : list MatchResult)
  : list MatchResult :=
  filter (fun r => treatment_of r = t) rs.

Lemma filter_keep_all {A} (P : A -> Prop) `{forall x, Decision (P x)}
    (l : list A) :
  Forall P l -> filter P l = l.
Proof.
  induction 1 as [|x l Hx _ IH]; [reflexivity|].
  rewrite filter_cons, decide_True by exact Hx. f_equal. exact IH.
Qed.

Lemma filter_keep_none {A} (P : A -> Prop) `{forall x, Decision (P x)}
    (l : list A) :
  Forall (fun x => ~ P x) l -> filter P l = [].
Proof.
  induction 1 as [|x l Hx _ IH]; [reflexivity|].
  rewrite filter_cons, decide_False by exact Hx. exact IH.
Qed.

Lemma block_treatment (args : Args) (t : string * Q) (b : list MatchResult) :
  block_ok args t b -> Forall (fun r => treatment_of r = t) b.
Proof.
  intros (Hall & _). eapply List.Forall_impl; [|exact Hall].
  intros r [H1 H2]. unfold treatment_of. rewrite H1, H2.
  destruct t; reflexivity.
Qed.

Lemma blocks_treatments (args : Args) (ts : list (string * Q))
    (blocks : list (list MatchResult)) :
  Forall2 (block_ok args) ts blocks ->
  Forall (fun r => treatment_of r ∈ ts) (concat blocks).
Proof.
  induction 1 as [|t b ts blocks Hb _ IH]; simpl; [constructor|].
  apply Forall_app. split.
  - eapply List.Forall_impl; [|exact (block_treatment args t b Hb)].
    intros r Hr. cbv beta in Hr. rewrite Hr. apply list_elem_of_here.
  - eapply List.Forall_impl; [|exact IH].
    intros r Hr. apply list_elem_of_further, Hr.
Qed.

(** When no treatment occurs twice, the records of a treatment are its
    block. *)
Lemma records_of_block (args : Args) (ts : list (string * Q))
    (blocks : list (list MatchResult)) :
  NoDup ts ->
  Forall2 (block_ok args) ts blocks ->
  forall (i : nat) (t : string * Q) (b : list MatchResult),
    ts !! i = Some t -> blocks !! i = Some b ->
    records_of t (concat blocks) = b.
Proof.
  intros Hnd Hall. unfold records_of.
  induction Hall as [|t0 b0 ts blocks Hb Hall IH]; intros i t b Ht Hblk.
  { destruct i; discriminate. }
  apply NoDup_cons in Hnd as [Hnotin Hnd]. simpl. rewrite filter_app.
  destruct i as [|i]; simpl in Ht, Hblk.
  - injection Ht as ->. injection Hblk as ->.
    rewrite (filter_keep_all _ b (block_treatment args t b Hb)).
    rewrite filter_keep_none; [apply app_nil_r|].
    eapply List.Forall_impl; [|exact (blocks_treatments args ts blocks Hall)].
    intros r Hr Heq. cbv beta in Hr. rewrite Heq in Hr. exact (Hnotin Hr).
  - rewrite filter_keep_none; [exact (IH Hnd i t b Ht Hblk)|].
    eapply List.Forall_impl; [|exact (block_treatment args t0 b0 Hb)].
    intros r Hr Heq. cbv beta in Hr. apply Hnotin. rewrite <- Hr, Heq.
    apply list_elem_of_lookup. exists i. exact Ht.
Qed.

(** C2 (as the code has it).  With [--no_reuse] and [k >= 1], no control
    id occurs in two match records of the output.  The output is made of
    one block of records per data center and buffer, in the order of the
    run, whose ranks are [0, 1, ..., m-1] with [m <= k] and whose
    distances never decrease as the rank grows (equal distances stay
    next to each other; [NaN] distances come last).  When no (data
    center, buffer) pair is processed twice, the block of a pair is the
    set of all output records of that pair. *)
Theorem matching_no_reuse_ranks (args : Args) (df : list aoi) :
  no_reuse args = true ->
  (1 <= k args)%Z ->
  NoDup (map control_aoi_id (main args df))
  /\ (exists blocks : list (list MatchResult),
        main args df = concat blocks
        /\ Forall2 (block_ok args) (treatments (buffer_groups args df))
             blocks)
  /\ (NoDup (treatments (buffer_groups args df)) ->
      forall t, t ∈ treatments (buffer_groups args df) ->
                block_ok args t (records_of t (main args df))).
Proof.
  intros Hnr Hk. unfold main.
  destruct (main_loop_blocks args (buffer_groups args df) ∅ Hk)
    as (blocks & Hcat & Hall).
  split; [|split].
  - destruct (main_loop_stretch args (buffer_groups args df) ∅)
      as (_ & _ & H).
    exact (proj2 (H Hnr)).
  - exists blocks. split; assumption.
  - intros Hnd t Ht. apply list_elem_of_lookup in Ht as [i Hi].
    destruct (Forall2_lookup_l _ _ _ _ _ Hall Hi) as (b & Hb & Hok).
    rewrite Hcat, (records_of_block args _ blocks Hnd Hall i t b Hi Hb).
    exact Hok.
Qed.

(** One data center and two controls with the same covariate, in one
    500 m buffer group. *)
Definition site (a : string) (dc : Z) (x : Q) : aoi :=
  {| aoi_id := a; is_data_center := dc; aoi_buffer_m := Some 500%Q;
     covariates := [Fin x] |}.

Definition twins : list aoi :=
  [site "dc1" 1 10; site "c1" 0 12; site "c2" 0 12].

Definition two_nearest : Args :=
  {| k := 2; no_reuse := true; features := ["impervious_pct__mean"] |}.

Lemma matching_no_reuse_ranks_witness :
  (no_reuse two_nearest = true /\ (1 <= k two_nearest)%Z)
  /\ NoDup (map control_aoi_id (main two_nearest twins))
  /\ block_ok two_nearest ("dc1", 500%Q)
       (records_of ("dc1", 500%Q) (main two_nearest twins)).
Proof.
  assert (Hk : (1 <= k two_nearest)%Z) by (simpl; lia).
  destruct (matching_no_reuse_ranks two_nearest twins eq_refl Hk)
    as (Hnd & _ & Hblock).
  split; [split; [reflexivity | exact Hk]|].
  split; [exact Hnd|].
  apply Hblock.
  - vm_compute. apply NoDup_singleton.
  - vm_compute. apply list_elem_of_here.
Defined.

(** C2 does not hold as stated: the two controls are equally far from
    the data center (the squared standardised distance is 9/2 for both),
    so ranks 0 and 1 carry the same distance; the distance does not
    increase strictly with the rank. *)
Lemma equal_distances_at_ranks_0_and_1 :
  map (fun r => (data_center_aoi_id r, control_aoi_id r, match_rank r))
      (main two_nearest twins)
  = [("dc1", "c1", 0%nat); ("dc1", "c2", 1%nat)]
  /\ Forall (fun r => root_eq (distance r) (Sqrt (Fin (9 # 2))))
            (main two_nearest twins)
  /\ ~ (9 # 2 < 9 # 2)%Q.
Proof.
  split; [vm_compute; reflexivity|].
  split; [vm_compute; repeat constructor|].
  apply Qlt_irrefl.
Qed.

(** A data-center id on two rows of the table (the covariates are merged
    onto the AOIs without deduplication) is processed once per row: the
    pair is then not unique among the treatments, its records are two
    blocks, and the ranks start again at 0 in the second one. *)
Definition repeated_id : list aoi :=
  [site "dc1" 1 10; site "dc1" 1 10; site "c1" 0 11; site "c2" 0 12;
   site "c3" 0 13; site "c4" 0 14].

Lemma repeated_id_restarts_ranks :
  treatments (buffer_groups two_nearest repeated_id)
  = [("dc1", 500%Q); ("dc1", 500%Q)]
  /\ map (fun r => (control_aoi_id r, match_rank r))
         (records_of ("dc1", 500%Q) (main two_nearest repeated_id))
     = [("c1", 0%nat); ("c2", 1%nat); ("c3", 0%nat); ("c4", 1%nat)].
Proof. split; vm_compute; reflexivity. Qed.

End Matching.

(* ===================================================================== *)
(** * Further results on the zonal statistics                             *)
(* ===================================================================== *)

Module ZonalFacts.
Import Zonal.

(** ** The reduction looks at the finite samples only *)

Lemma finite_values_Fin (l : list Q) : finite_values (map Fin l) = l.
Proof. induction l as [|q l IH]; simpl; [reflexivity | f_equal; exact IH]. Qed.

Lemma finite_values_Exists (arr : list float) :
  finite_values arr <> [] -> Exists (fun x => isfinite x = true) arr.
Proof.
  induction arr as [|x arr IH]; simpl; [congruence|].
  destruct x; intros H; try (apply Exists_cons_tl, IH, H).
  apply Exists_cons_hd. reflexivity.
Qed.

Lemma safe_stat_reduce (arr : list float) (stat : string) :
  finite_values arr <> [] ->
  safe_stat arr stat
  = let vals := finite_values arr in
    if String.eqb stat "mean" then Ok (Fin (mean vals))
    else if String.eqb stat "median" then Ok (Fin (median vals))
    else if String.eqb stat "p90" then Ok (Fin (percentile vals 90))
    else if String.eqb stat "count" then Ok (of_nat (length vals))
    else Raise (ValueError ("Unknown stat: " +:+ stat)).
Proof.
  intros Hne. pose proof (finite_values_Exists arr Hne) as Hex.
  unfold safe_stat. rewrite (count_finite_some arr Hex).
  destruct arr; [destruct (Hne eq_refl) | reflexivity].
Qed.

(** X1.  Samples that are [NaN] or infinite do not matter: on an array with a
    finite sample every statistic is the statistic of the finite samples
    alone. *)
Theorem safe_stat_ignores_nonfinite (arr : list float) (stat : string) :
  finite_values arr <> [] ->
  safe_stat arr stat = safe_stat (map Fin (finite_values arr)) stat.
Proof.
  intros Hne. rewrite (safe_stat_reduce arr stat Hne).
  rewrite safe_stat_reduce; rewrite finite_values_Fin; [reflexivity | exact Hne].
Qed.

Lemma safe_stat_ignores_nonfinite_witness :
  finite_values [NaN; Fin 3; PInf; Fin 5] <> []
  /\ safe_stat [NaN; Fin 3; PInf; Fin 5] "mean"
     = safe_stat (map Fin [3%Q; 5%Q]) "mean".
Proof.
  assert (H : finite_values [NaN; Fin 3; PInf; Fin 5] <> []) by discriminate.
  exact (conj H (safe_stat_ignores_nonfinite [NaN; Fin 3; PInf; Fin 5]
                   "mean" H)).
Defined.

(** ** The transform and the statistics *)

Lemma isfinite_affine (s o : Q) (x : float) :
  isfinite (fadd (fmul x (Fin s)) (Fin o)) = isfinite x.
Proof.
  destruct x; simpl; try reflexivity;
    unfold Qsign; destruct (s ?= 0)%Q; reflexivity.
Qed.

Lemma finite_values_affine (s o : Q) (arr : list float) :
  finite_values (map (fun x => fadd (fmul x (Fin s)) (Fin o)) arr)
  = map (fun v => (v * s + o)%Q) (finite_values arr).
Proof.
  induction arr as [|x arr IH]; simpl; [reflexivity|].
  destruct x; simpl.
  - rewrite IH. reflexivity.
  - exact IH.
  - unfold Qsign; destruct (s ?= 0)%Q; simpl; exact IH.
  - unfold Qsign; destruct (s ?= 0)%Q; simpl; exact IH.
Qed.

(** ** The interpolation weight of a percentile *)

Lemma frac_within (x : Q) :
  (0 <= x - inject_Z (Qfloor x) /\ x - inject_Z (Qfloor x) <= 1)%Q.
Proof.
  pose proof (Qfloor_le x) as H1. pose proof (Qlt_floor x) as H2.
  rewrite inject_Z_plus in H2. change (inject_Z 1) with 1%Q in H2.
  split; lra.
Qed.

(** ** One polygon on one raster *)

Section Rasters.
Context {Geometry : Type}.

Lemma outcome_bind_Ok {A B} (m : io A) (f : A -> io B) (b : B) :
  outcome (m ≫= f) = Ok b ->
  exists a, outcome m = Ok a /\ outcome (f a) = Ok b.
Proof.
  destruct m as [l [a|e]]; simpl; [|discriminate].
  intros H. exists a. split; [reflexivity|].
  destruct (f a); exact H.
Qed.

Lemma outcome_bind_inv {A B} (P : A -> Prop) (m1 m2 : io A)
    (f g : A -> io B) :
  outcome m1 = outcome m2 ->
  (forall a, outcome m2 = Ok a -> P a) ->
  (forall a, P a -> outcome (f a) = outcome (g a)) ->
  outcome (m1 ≫= f) = outcome (m2 ≫= g).
Proof.
  destruct m1 as [l1 r1], m2 as [l2 r2]; simpl; intros -> HP Hfg.
  destruct r2 as [a|e]; simpl; [|reflexivity].
  specialize (Hfg a (HP a eq_refl)).
  destruct (f a), (g a); exact Hfg.
Qed.

Lemma and_mask_length (keep m keep' : list bool) :
  and_mask keep m = Ok keep' -> length keep' = length keep.
Proof.
  unfold and_mask. destruct (length keep =? length m)%nat eqn:E;
    [|discriminate].
  apply Nat.eqb_eq in E. intros [= <-].
  rewrite length_zip_with. lia.
Qed.

Lemma and_channel_length {P} (keep keep' : list bool) (m : option (list P))
    (pred : P -> bool) :
  and_channel keep m pred = Ok keep' -> length keep' = length keep.
Proof.
  destruct m as [img|]; simpl; [apply and_mask_length|].
  intros [= <-]. reflexivity.
Qed.

Lemma and_mask_all_true (keep m : list bool) :
  length m = length keep -> Forall (fun b => b = true) m ->
  and_mask keep m = Ok keep.
Proof.
  intros Hlen Hall. unfold and_mask. rewrite Hlen, Nat.eqb_refl. f_equal.
  revert m Hlen Hall. induction keep as [|k keep IH]; intros [|b m] Hlen Hall;
    try discriminate; [reflexivity|].
  apply Forall_cons in Hall as [-> Hall]. simpl.
  rewrite andb_true_r. f_equal. apply IH; [|exact Hall].
  simpl in Hlen. lia.
Qed.

(** The class read from a QC value through the bitmask 3 is 0, 1, 2
    or 3. *)
Lemma qc_class_3 (v : Z) : (0 <= qc_class 3 v <= 3)%Z.
Proof.
  unfold qc_class. change (3 mod 65536)%Z with (Z.ones 2).
  rewrite Z.land_ones by lia.
  pose proof (Z.mod_pos_bound (v mod 65536) (2 ^ 2) eq_refl) as H.
  rewrite Z.mod_small; lia.
Qed.

(** X9.  Keeping the four classes [0, 1, 2, 3] under the bitmask 3 filters
    nothing: a QC raster that is read on the grid of the data leaves the
    outcome as it is without a QC raster. *)
Theorem qc_keep_all_classes_is_no_filter (geom : Geometry) (cfg : Config)
    (cloud_src water_src : option (DatasetReader Geometry Z))
    (qc : DatasetReader Geometry Z)
    (lst_err_src : option (DatasetReader Geometry float))
    (data : list float) (qc_img : list Z) :
  qc_class_bitmask (quality cfg) = 3%Z ->
  (forall c, (0 <= c <= 3)%Z -> In c (qc_keep_classes (quality cfg))) ->
  mask qc geom = Ok qc_img ->
  length qc_img = length data ->
  outcome (quality_mask geom cfg cloud_src water_src (Some qc) lst_err_src
             data)
  = outcome (quality_mask geom cfg cloud_src water_src None lst_err_src
               data).
Proof.
  intros Hbit Hkeep Hmask Hlen. unfold quality_mask.
  apply outcome_bind_r; intros cloud.
  apply (outcome_bind_inv (fun k => length k = length data));
    [reflexivity | | intros keep1 Hk1].
  { intros k Hk. apply and_channel_length in Hk.
    rewrite Hk. apply length_map. }
  apply outcome_bind_r; intros water.
  apply (outcome_bind_inv (fun k => length k = length data));
    [reflexivity | | intros keep2 Hk2].
  { intros k Hk. apply and_channel_length in Hk. congruence. }
  simpl. rewrite Hmask. simpl.
  assert (Hqc : and_mask keep2
                  (map (fun v => isin (qc_keep_classes (quality cfg))
                                   (qc_class (qc_class_bitmask (quality cfg))
                                      v)) qc_img) = Ok keep2).
  { apply and_mask_all_true; [rewrite length_map; congruence|].
    apply List.Forall_forall. intros b Hb.
    apply in_map_iff in Hb as (v & <- & _).
    rewrite Hbit. unfold isin. apply existsb_exists.
    exists (qc_class 3 v). split; [apply Hkeep, qc_class_3 | apply Z.eqb_refl]. }
  rewrite Hqc. simpl.
  destruct (max_lst_err (quality cfg)) as [max_err|]; simpl; [|reflexivity].
  destruct (_mask_band geom LstErr lst_err_src) as [l [err|e]]; simpl;
    [|reflexivity].
  destruct (and_channel keep2 err _); reflexivity.
Qed.

Ltac log_only :=
  repeat first [apply List.Forall_nil | apply List.Forall_cons; [auto|]].

(** X10.  With quality masking switched off the companion rasters are never
    read: the run makes no call on them and is the run without them. *)
Theorem quality_off_ignores_companions (src : DatasetReader Geometry float)
    (geom : Geometry) (cfg : Config)
    (cloud_src water_src qc_src : option (DatasetReader Geometry Z))
    (lst_err_src : option (DatasetReader Geometry float)) :
  enabled (quality cfg) && ecostress_companion_masks (quality cfg) = false ->
  let run := zonal_stats_for_geom src geom cfg cloud_src water_src qc_src
               lst_err_src in
  run = zonal_stats_for_geom src geom cfg None None None None
  /\ Forall (fun ev => ev = BoundsCheck \/ ev = MaskCall Primary) (trace run).
Proof.
  intros Hoff run; subst run. unfold zonal_stats_for_geom. rewrite Hoff.
  split; [reflexivity|].
  destruct (bounds_intersects src geom) as [[|]|e]; simpl;
    try (log_only; fail);
    (destruct (mask src geom) as [data|[msg|msg]]; simpl;
     try (log_only; fail);
     match goal with
     | |- context [transform_values ?d ?c] =>
         destruct (transform_values d c) as [out|e']; simpl
     end;
     try (log_only; fail);
     match goal with
     | |- context [mapM ?f ?l] => destruct (mapM f l); simpl
     end;
     log_only).
Qed.

Lemma mapM_stats (data : list float) (stats : list string)
    (kvs : list (string * float)) :
  mapM (fun stat => v ← safe_stat data stat; mret (stat, v)) stats = Ok kvs ->
  map fst kvs = stats
  /\ Forall (fun kv => safe_stat data (fst kv) = Ok (snd kv)) kvs.
Proof.
  revert kvs. induction stats as [|stat stats IH]; intros kvs; simpl.
  { intros [= <-]. split; [reflexivity | constructor]. }
  destruct (safe_stat data stat) as [v|e] eqn:Ev; simpl; [|discriminate].
  destruct (mapM _ stats) as [kvs'|e]; simpl; [|discriminate].
  intros [= <-]. destruct (IH kvs' eq_refl) as [Hk Hv].
  split; [simpl; f_equal; exact Hk|].
  constructor; [exact Ev | exact Hv].
Qed.

Lemma list_to_map_keys (kvs : list (string * float)) (stat : string) :
  is_Some ((list_to_map kvs : gmap string float) !! stat)
  <-> In stat (map fst kvs).
Proof.
  induction kvs as [|[k v] kvs IH]; simpl.
  - rewrite lookup_empty. split; [intros [x Hx]; discriminate | tauto].
  - destruct (decide (k = stat)) as [->|Hne].
    + rewrite lookup_insert_eq. split; [left; reflexivity | eauto].
    + rewrite lookup_insert_ne by exact Hne. rewrite IH.
      split; [tauto | intros [H|H]; [contradiction | exact H]].
Qed.

(** X5.  A run that returns, returns a dictionary with exactly the requested
    statistics as keys, on the rejection paths as on the full path. *)
Theorem zonal_result_keys (src : DatasetReader Geometry float)
    (geom : Geometry) (cfg : Config)
    (cloud_src water_src qc_src : option (DatasetReader Geometry Z))
    (lst_err_src : option (DatasetReader Geometry float))
    (d : gmap string float) :
  outcome (zonal_stats_for_geom src geom cfg cloud_src water_src qc_src
             lst_err_src) = Ok d ->
  forall stat, is_Some (d !! stat) <-> In stat (stats cfg).
Proof.
  assert (Hnan : forall stat,
             is_Some (nan_stats cfg !! stat) <-> In stat (stats cfg)).
  { intros stat. unfold nan_stats. rewrite list_to_map_keys, map_map.
    simpl. rewrite map_id. reflexivity. }
  unfold zonal_stats_for_geom. intros H.
  apply outcome_bind_Ok in H as ([] & _ & H).
  assert (Hfull :
    outcome (_ ← tell (MaskCall Primary);
             match mask src geom with
             | Ok data0 =>
                 let data1 :=
                   match nodata src with
                   | Some nd => set_nan_where (fun x => feqb x nd) data0
                   | None => data0
                   end in
                 let data2 :=
                   match nodata_equals cfg with
                   | Some v => set_nan_where (fun x => feqb x (Fin v)) data1
                   | None => data1
                   end in
                 let data3 :=
                   match nodata_below cfg with
                   | Some v => set_nan_where (fun x => fltb x (Fin v)) data2
                   | None => data2
                   end in
                 data4 ← (if enabled (quality cfg)
                             && ecostress_companion_masks (quality cfg)
                          then quality_mask geom cfg cloud_src water_src
                                 qc_src lst_err_src data3
                          else mret data3);
                 data5 ← lift (transform_values data4 cfg);
                 kvs ← lift (mapM (fun stat => v ← safe_stat data5 stat;
                                              mret (stat, v)) (stats cfg));
                 mret (list_to_map kvs)
             | Raise (ValueError _) => mret (nan_stats cfg)
             | Raise e => lift (Raise e)
             end) = Ok d ->
    forall stat, is_Some (d !! stat) <-> In stat (stats cfg)).
  { clear H. intros H.
    apply outcome_bind_Ok in H as ([] & _ & H).
    destruct (mask src geom) as [data0|[msg|msg]];
      [|injection H as <-; exact Hnan | discriminate].
    cbv zeta in H.
    apply outcome_bind_Ok in H as (data4 & _ & H).
    apply outcome_bind_Ok in H as (data5 & _ & H).
    apply outcome_bind_Ok in H as (kvs & Hkvs & H).
    injection H as <-. simpl in Hkvs.
    destruct (mapM_stats data5 (stats cfg) kvs Hkvs) as [Hk _].
    intros stat. rewrite list_to_map_keys, Hk. reflexivity. }
  destruct (bounds_intersects src geom) as [[|]|e];
    [exact (Hfull H) | injection H as <-; exact Hnan | exact (Hfull H)].
Qed.

(** ** When a run returns *)

(** A companion raster on the grid of the data: absent, or not
    overlapping the polygon, or masked to as many pixels as the data. *)
Definition registered {P} (geom : Geometry) (n : nat)
    (src_mask : option (DatasetReader Geometry P)) : Prop :=
  match src_mask with
  | None => True
  | Some ds =>
      match mask ds geom with
      | Ok img => length img = n
      | Raise (ValueError _) => True
      | Raise (OtherError _) => False
      end
  end.

Lemma outcome_bind_step {A B} (m : io A) (f : A -> io B) (a : A) :
  outcome m = Ok a -> outcome (m ≫= f) = outcome (f a).
Proof.
  destruct m as [l r]; simpl; intros ->. destruct (f a); reflexivity.
Qed.

Lemma mask_band_registered {P} (geom : Geometry) (b : band) (n : nat)
    (src_mask : option (DatasetReader Geometry P)) :
  registered geom n src_mask ->
  exists m, outcome (_mask_band geom b src_mask) = Ok m
            /\ forall img, m = Some img -> length img = n.
Proof.
  destruct src_mask as [ds|]; simpl.
  - destruct (mask ds geom) as [img|[msg|msg]]; simpl; intros H.
    + exists (Some img). split; [reflexivity|]. intros ? [= <-]. exact H.
    + exists None. split; [reflexivity | discriminate].
    + destruct H.
  - intros _. exists None. split; [reflexivity | discriminate].
Qed.

Lemma and_channel_registered {P} (keep : list bool) (m : option (list P))
    (pred : P -> bool) (n : nat) :
  length keep = n -> (forall img, m = Some img -> length img = n) ->
  exists keep', and_channel keep m pred = Ok keep' /\ length keep' = n.
Proof.
  intros Hk Hm. destruct m as [img|]; simpl; [|eauto].
  unfold and_mask. rewrite length_map, Hk, (Hm img eq_refl), Nat.eqb_refl.
  eexists. split; [reflexivity|].
  rewrite length_zip_with, length_map, Hk, (Hm img eq_refl). lia.
Qed.

Lemma quality_mask_returns (geom : Geometry) (cfg : Config)
    (cloud_src water_src qc_src : option (DatasetReader Geometry Z))
    (lst_err_src : option (DatasetReader Geometry float))
    (data : list float) :
  registered geom (length data) cloud_src ->
  registered geom (length data) water_src ->
  registered geom (length data) qc_src ->
  (max_lst_err (quality cfg) <> None ->
   registered geom (length data) lst_err_src) ->
  exists out,
    outcome (quality_mask geom cfg cloud_src water_src qc_src lst_err_src
               data) = Ok out.
Proof.
  intros Hc Hw Hq He. unfold quality_mask.
  destruct (mask_band_registered geom Cloud _ _ Hc) as (cloud & Ec & Lc).
  rewrite (outcome_bind_step _ _ _ Ec).
  destruct (and_channel_registered (map isfinite data) cloud
              (isin (keep_cloud_values (quality cfg))) (length data)
              (length_map _ _) Lc) as (keep1 & E1 & L1).
  rewrite (outcome_bind_step _ _ keep1) by exact E1.
  destruct (mask_band_registered geom Water _ _ Hw) as (water & Ew & Lw).
  rewrite (outcome_bind_step _ _ _ Ew).
  destruct (and_channel_registered keep1 water
              (isin (keep_water_values (quality cfg))) (length data) L1 Lw)
    as (keep2 & E2 & L2).
  rewrite (outcome_bind_step _ _ keep2) by exact E2.
  destruct (mask_band_registered geom QC _ _ Hq) as (qc & Eq & Lq).
  rewrite (outcome_bind_step _ _ _ Eq).
  destruct (and_channel_registered keep2 qc
              (fun v => isin (qc_keep_classes (quality cfg))
                          (qc_class (qc_class_bitmask (quality cfg)) v))
              (length data) L2 Lq) as (keep3 & E3 & L3).
  rewrite (outcome_bind_step _ _ keep3) by exact E3.
  destruct (max_lst_err (quality cfg)) as [max_err|].
  - destruct (mask_band_registered geom LstErr _ _
                (He ltac:(discriminate))) as (err & Ee & Le).
    destruct (and_channel_registered keep3 err
                (fun e => fleb e (Fin max_err)) (length data) L3 Le)
      as (keep4 & E4 & L4).
    rewrite (outcome_bind_step _ _ keep4); [eexists; reflexivity|].
    rewrite (outcome_bind_step _ _ _ Ee). exact E4.
  - eexists. reflexivity.
Qed.

Lemma safe_stat_known (arr : list float) (stat : string) :
  known_stat stat = true -> exists v, safe_stat arr stat = Ok v.
Proof.
  unfold known_stat, safe_stat. intros Hk.
  destruct (length arr =? 0)%nat; [eauto|].
  destruct (count_occ bool_dec (map isfinite arr) true =? 0)%nat; [eauto|].
  destruct (String.eqb stat "mean"); [eauto|].
  destruct (String.eqb stat "median"); [eauto|].
  destruct (String.eqb stat "p90"); [eauto|].
  destruct (String.eqb stat "count"); [eauto | discriminate].
Qed.

Lemma mapM_known (data : list float) (stats : list string) :
  Forall (fun stat => known_stat stat = true) stats ->
  exists kvs,
    mapM (fun stat => v ← safe_stat data stat; mret (stat, v)) stats = Ok kvs.
Proof.
  induction 1 as [|stat stats Hs _ [kvs IH]]; simpl; [eauto|].
  destruct (safe_stat_known data stat Hs) as [v ->]. simpl.
  rewrite IH. simpl. eauto.
Qed.

(** X6.  A run raises only for a reason of its own: with known statistic
    names and a known transform type, a primary raster whose masking
    does not fail with an error other than "no overlap", and the
    companion rasters that are read on the grid of the data, the run
    returns a dictionary.  The companions that are read are the cloud,
    water and QC rasters when quality masking is on, and the uncertainty
    raster when [max_lst_err] is set as well; nothing is asked of a
    companion that is not read, nor of the primary raster when the
    bounds check rejects the polygon. *)
Theorem zonal_returns (src : DatasetReader Geometry float)
    (geom : Geometry) (cfg : Config)
    (cloud_src water_src qc_src : option (DatasetReader Geometry Z))
    (lst_err_src : option (DatasetReader Geometry float)) :
  Forall (fun stat => known_stat stat = true) (stats cfg) ->
  type (value_transform cfg) = "identity"
  \/ type (value_transform cfg) = "scale_offset" ->
  (bounds_intersects src geom <> Ok false ->
   forall msg, mask src geom <> Raise (OtherError msg)) ->
  (forall data,
      bounds_intersects src geom <> Ok false ->
      mask src geom = Ok data ->
      enabled (quality cfg) && ecostress_companion_masks (quality cfg)
      = true ->
      registered geom (length data) cloud_src
      /\ registered geom (length data) water_src
      /\ registered geom (length data) qc_src
      /\ (max_lst_err (quality cfg) <> None ->
          registered geom (length data) lst_err_src)) ->
  exists d, outcome (zonal_stats_for_geom src geom cfg cloud_src water_src
                       qc_src lst_err_src) = Ok d.
Proof.
  intros Hstats Htype Hmask Hreg. unfold zonal_stats_for_geom.
  rewrite (outcome_bind_step (tell BoundsCheck) _ tt eq_refl).
  assert (Hfull : forall data0 : list float,
    bounds_intersects src geom <> Ok false ->
    mask src geom = Ok data0 ->
    forall data3 : list float, length data3 = length data0 ->
    exists d : gmap string float,
      outcome (data4 ← (if enabled (quality cfg)
                           && ecostress_companion_masks (quality cfg)
                        then quality_mask geom cfg cloud_src water_src
                               qc_src lst_err_src data3
                        else mret data3);
               data5 ← lift (transform_values data4 cfg);
               kvs ← lift (mapM (fun stat => v ← safe_stat data5 stat;
                                            mret (stat, v)) (stats cfg));
               mret (list_to_map kvs)) = Ok d).
  { intros data0 Hnot Hm data3 Hlen.
    assert (H4 : exists data4,
               outcome (if enabled (quality cfg)
                           && ecostress_companion_masks (quality cfg)
                        then quality_mask geom cfg cloud_src water_src
                               qc_src lst_err_src data3
                        else mret data3) = Ok data4).
    { pose proof (Hreg data0 Hnot Hm) as Hr.
      destruct (enabled (quality cfg)
                && ecostress_companion_masks (quality cfg));
        [|eexists; reflexivity].
      destruct (Hr eq_refl) as (Hc & Hw & Hq & He).
      rewrite <- Hlen in Hc, Hw, Hq, He.
      apply quality_mask_returns; assumption. }
    destruct H4 as [data4 H4]. rewrite (outcome_bind_step _ _ _ H4).
    assert (H5 : exists data5, transform_values data4 cfg = Ok data5).
    { unfold transform_values. destruct Htype as [-> | ->]; simpl; eauto. }
    destruct H5 as [data5 H5].
    rewrite (outcome_bind_step _ _ data5) by exact H5.
    destruct (mapM_known data5 (stats cfg) Hstats) as [kvs Hk].
    rewrite (outcome_bind_step _ _ kvs) by exact Hk.
    eexists. reflexivity. }
  assert (Hcrop : bounds_intersects src geom <> Ok false ->
    exists d : gmap string float,
    outcome (_ ← tell (MaskCall Primary);
             match mask src geom with
             | Ok data0 =>
                 let data1 :=
                   match nodata src with
                   | Some nd => set_nan_where (fun x => feqb x nd) data0
                   | None => data0
                   end in
                 let data2 :=
                   match nodata_equals cfg with
                   | Some v => set_nan_where (fun x => feqb x (Fin v)) data1
                   | None => data1
                   end in
                 let data3 :=
                   match nodata_below cfg with
                   | Some v => set_nan_where (fun x => fltb x (Fin v)) data2
                   | None => data2
                   end in
                 data4 ← (if enabled (quality cfg)
                             && ecostress_companion_masks (quality cfg)
                          then quality_mask geom cfg cloud_src water_src
                                 qc_src lst_err_src data3
                          else mret data3);
                 data5 ← lift (transform_values data4 cfg);
                 kvs ← lift (mapM (fun stat => v ← safe_stat data5 stat;
                                              mret (stat, v)) (stats cfg));
                 mret (list_to_map kvs)
             | Raise (ValueError _) => mret (nan_stats cfg)
             | Raise e => lift (Raise e)
             end) = Ok d).
  { intros Hnot.
    rewrite (outcome_bind_step (tell (MaskCall Primary)) _ tt eq_refl).
    destruct (mask src geom) as [data0|[msg|msg]] eqn:Hm.
    - cbv zeta. apply (Hfull data0 Hnot eq_refl).
      unfold set_nan_where.
      destruct (nodata_below cfg), (nodata_equals cfg), (nodata src);
        rewrite ?length_map; reflexivity.
    - eexists. reflexivity.
    - destruct (Hmask Hnot msg eq_refl). }
  destruct (bounds_intersects src geom) as [[|]|e] eqn:Hb;
    [apply Hcrop; discriminate | eexists; reflexivity
     | apply Hcrop; discriminate].
Qed.

Lemma finite_values_keep (keep : list bool) (data : list float) :
  (length (finite_values
             (zip_with (fun (k : bool) x => if k then x else NaN) keep data))
   <= length (finite_values data))%nat.
Proof.
  revert data. induction keep as [|k keep IH]; intros [|x data]; simpl;
    try lia.
  specialize (IH data). destruct k, x; simpl; lia.
Qed.

Lemma quality_mask_removes (geom : Geometry) (cfg : Config)
    (cloud_src water_src qc_src : option (DatasetReader Geometry Z))
    (lst_err_src : option (DatasetReader Geometry float))
    (data out : list float) :
  outcome (quality_mask geom cfg cloud_src water_src qc_src lst_err_src
             data) = Ok out ->
  length out = length data
  /\ (forall i x, nth_error out i = Some x ->
                  x = NaN \/ nth_error data i = Some x)
  /\ (length (finite_values out) <= length (finite_values data))%nat.
Proof.
  unfold quality_mask. intros H.
  apply outcome_bind_Ok in H as (cloud & _ & H).
  apply outcome_bind_Ok in H as (keep1 & E1 & H).
  apply outcome_bind_Ok in H as (water & _ & H).
  apply outcome_bind_Ok in H as (keep2 & E2 & H).
  apply outcome_bind_Ok in H as (qc & _ & H).
  apply outcome_bind_Ok in H as (keep3 & E3 & H).
  apply outcome_bind_Ok in H as (keep4 & E4 & H).
  injection H as <-.
  apply and_channel_length in E1, E2, E3. rewrite length_map in E1.
  assert (L4 : length keep4 = length data).
  { destruct (max_lst_err (quality cfg)) as [max_err|].
    - apply outcome_bind_Ok in E4 as (err & _ & E4).
      apply and_channel_length in E4. congruence.
    - injection E4 as <-. congruence. }
  clear E1 E2 E3 E4. split; [rewrite length_zip_with; lia|].
  split; [|apply finite_values_keep].
  revert data L4. induction keep4 as [|k keep IH]; intros [|y data] L4 i x;
    try discriminate; [destruct i; discriminate|].
  simpl. destruct i as [|i]; simpl.
  - intros [= <-]. destruct k; auto.
  - apply IH. simpl in L4. lia.
Qed.

(** X8.  Quality masking only removes samples: the masked array has the size
    of the data, each of its entries is the entry of the data or [NaN],
    and it has at most as many finite samples as the data. *)
Theorem quality_mask_only_removes (geom : Geometry) (cfg : Config)
    (cloud_src water_src qc_src : option (DatasetReader Geometry Z))
    (lst_err_src : option (DatasetReader Geometry float))
    (data out : list float) :
  outcome (quality_mask geom cfg cloud_src water_src qc_src lst_err_src
             data) = Ok out ->
  length out = length data
  /\ (forall i x, nth_error out i = Some x ->
                  x = NaN \/ nth_error data i = Some x)
  /\ (length (finite_values out) <= length (finite_values data))%nat.
Proof.
  exact (quality_mask_removes geom cfg cloud_src water_src qc_src lst_err_src
           data out).
Qed.

End Rasters.

(** ** Instances *)

(** Quality masking on, with every QC class kept. *)
Definition keep_every_qc_class : Config := {|
  nodata_below := None;
  nodata_equals := None;
  value_transform := {| type := "identity"; scale := None; offset := None |};
  stats := ["mean"; "count"];
  quality :=
    {| enabled := true;
       ecostress_companion_masks := true;
       cloud_suffix := "_cloud.tif";
       water_suffix := "_water.tif";
       qc_suffix := "_QC.tif";
       lst_err_suffix := "_LST_err.tif";
       keep_cloud_values := [0%Z];
       keep_water_values := [0%Z];
       qc_keep_classes := [0%Z; 1%Z; 2%Z; 3%Z];
       qc_class_bitmask := 3%Z;
       max_lst_err := None |};
  baseline := {| grouping := "month"; min_obs_per_group := 5 |}
|}.

Definition qc_tile : DatasetReader unit Z := {|
  bounds_intersects := fun _ => Ok true;
  mask := fun _ => Ok [5%Z; 65534%Z];
  nodata := None
|}.

Lemma qc_keep_all_classes_is_no_filter_witness :
  (qc_class_bitmask (quality keep_every_qc_class) = 3%Z
   /\ (forall c, (0 <= c <= 3)%Z ->
                 In c (qc_keep_classes (quality keep_every_qc_class)))
   /\ mask qc_tile () = Ok [5%Z; 65534%Z]
   /\ length [5%Z; 65534%Z] = length [Fin 300; Fin 310])
  /\ outcome (quality_mask () keep_every_qc_class (Some cloud_tile) None
                (Some qc_tile) None [Fin 300; Fin 310])
     = outcome (quality_mask () keep_every_qc_class (Some cloud_tile) None
                  None None [Fin 300; Fin 310]).
Proof.
  assert (Hkeep : forall c, (0 <= c <= 3)%Z ->
                            In c (qc_keep_classes
                                    (quality keep_every_qc_class))).
  { intros c Hc. simpl.
    assert (H : (c = 0 \/ c = 1 \/ c = 2 \/ c = 3)%Z) by lia.
    destruct H as [-> | [-> | [-> | ->]]]; tauto. }
  split; [repeat split; exact Hkeep|].
  exact (qc_keep_all_classes_is_no_filter () keep_every_qc_class
           (Some cloud_tile) None qc_tile None [Fin 300; Fin 310]
           [5%Z; 65534%Z] eq_refl Hkeep eq_refl eq_refl).
Defined.

Lemma quality_off_ignores_companions_witness :
  enabled (quality kelvin_to_celsius)
  && ecostress_companion_masks (quality kelvin_to_celsius) = false
  /\ zonal_stats_for_geom lst_tile () kelvin_to_celsius (Some cloud_tile)
       None (Some qc_tile) None
     = zonal_stats_for_geom lst_tile () kelvin_to_celsius None None None None
  /\ Forall (fun ev => ev = BoundsCheck \/ ev = MaskCall Primary)
       (trace (zonal_stats_for_geom lst_tile () kelvin_to_celsius
                 (Some cloud_tile) None (Some qc_tile) None)).
Proof.
  split; [reflexivity|].
  exact (quality_off_ignores_companions lst_tile () kelvin_to_celsius
           (Some cloud_tile) None (Some qc_tile) None eq_refl).
Defined.

Lemma zonal_result_keys_witness :
  outcome (zonal_stats_for_geom far_tile () kelvin_to_celsius
             None None None None) = Ok (nan_stats kelvin_to_celsius)
  /\ forall stat, is_Some (nan_stats kelvin_to_celsius !! stat)
                  <-> In stat (stats kelvin_to_celsius).
Proof.
  split; [reflexivity|].
  exact (zonal_result_keys far_tile () kelvin_to_celsius None None None None
           (nan_stats kelvin_to_celsius) eq_refl).
Defined.

(** An uncertainty raster that cannot be read. *)
Definition unreadable_err : DatasetReader unit float := {|
  bounds_intersects := fun _ => Ok true;
  mask := fun _ => Raise (OtherError "read failed");
  nodata := None
|}.

Lemma zonal_returns_witness :
  (Forall (fun stat => known_stat stat = true) (stats quality_on)
   /\ (type (value_transform quality_on) = "identity"
       \/ type (value_transform quality_on) = "scale_offset")
   /\ (forall msg, mask lst_tile () <> Raise (OtherError msg))
   /\ max_lst_err (quality quality_on) = None)
  /\ exists d, outcome (zonal_stats_for_geom lst_tile () quality_on
                          (Some cloud_tile) None None
                          (Some unreadable_err)) = Ok d.
Proof.
  assert (Hs : Forall (fun stat => known_stat stat = true)
                 (stats quality_on)) by (repeat constructor).
  assert (Ht : type (value_transform quality_on) = "identity"
               \/ type (value_transform quality_on) = "scale_offset")
    by (left; reflexivity).
  assert (Hm : forall msg, mask lst_tile () <> Raise (OtherError msg))
    by (intros msg; discriminate).
  split; [auto|].
  apply (zonal_returns lst_tile () quality_on (Some cloud_tile) None None
           (Some unreadable_err) Hs Ht (fun _ => Hm)).
  intros data _ [= <-] _. repeat split. intros H. destruct (H eq_refl).
Defined.

Lemma quality_mask_only_removes_witness :
  outcome (quality_mask () quality_on (Some cloud_tile) None None None
             [Fin 300; Fin 310]) = Ok [Fin 300; NaN]
  /\ length [Fin 300; NaN] = length [Fin 300; Fin 310]
  /\ (forall i x, nth_error [Fin 300; NaN] i = Some x ->
                  x = NaN \/ nth_error [Fin 300; Fin 310] i = Some x)
  /\ (length (finite_values [Fin 300; NaN])
      <= length (finite_values [Fin 300; Fin 310]))%nat.
Proof.
  split; [reflexivity|].
  exact (quality_mask_only_removes () quality_on (Some cloud_tile) None None
           None [Fin 300; Fin 310] [Fin 300; NaN] eq_refl).
Defined.

End ZonalFacts.

(* ===================================================================== *)
(** * Further results on the baseline and the hot flag                    *)
(* ===================================================================== *)

Module AnomalyFacts.
Import Anomaly.

Lemma fsub_nan (x : float) : fsub x NaN = NaN.
Proof. destruct x; reflexivity. Qed.

(** X13.  An observation is flagged hot only against a baseline: its date has a
    bucket, its group has at least [min_obs_per_group] values, and its
    value exceeds the group's 90th percentile.  Without a bucket, or in a
    group with fewer values, the anomaly is [NaN] and the flag is off. *)
Theorem hot_flag_needs_baseline (cfg : Config) (df : list obs) (i : nat)
    (o : obs) :
  nth_error df i = Some o ->
  let vals g := map mean (group_members (aoi_id o, g) df) in
  let min_obs := min_obs_per_group (baseline cfg) in
  exists r : obs2,
    nth_error (main_df2 cfg df) i = Some r
    /\ (is_hot_night r = true <->
        exists g, group o = Some g
                  /\ (min_obs <= Z.of_nat (series_count (vals g)))%Z
                  /\ fltb (nanpercentile (vals g) 90) (mean o) = true)
    /\ (group o = None
        \/ (exists g, group o = Some g
                      /\ (Z.of_nat (series_count (vals g)) < min_obs)%Z) ->
        anomaly r = NaN /\ is_hot_night r = false).
Proof.
  intros Hi vals min_obs. unfold main_df2.
  rewrite nth_error_map, Hi. simpl. eexists. split; [reflexivity|].
  unfold merge_row.
  destruct (group o) as [g|] eqn:Hg.
  - assert (Hk : key_of o = Some (aoi_id o, g))
      by (unfold key_of; rewrite Hg; reflexivity).
    rewrite (find_base cfg df o _ (nth_error_In _ _ Hi) Hk).
    cbn [is_hot_night anomaly]. unfold blank_small. cbn [n_obs agg].
    fold (vals g). fold min_obs.
    destruct (Z.of_nat (series_count (vals g)) <? min_obs)%Z eqn:E;
      cbn [baseline_p90 baseline_mean agg].
    + apply Z.ltb_lt in E. split.
      * split; [destruct (mean o); discriminate|].
        intros (g' & [= <-] & Hge & _). lia.
      * intros _. split; [apply fsub_nan | destruct (mean o); reflexivity].
    + apply Z.ltb_ge in E. split.
      * split; [intros H; exists g; auto|].
        intros (g' & [= <-] & _ & H). exact H.
      * intros [H|(g' & [= <-] & H)]; [discriminate | lia].
  - assert (Hk : key_of o = None) by (unfold key_of; rewrite Hg; reflexivity).
    rewrite Hk. cbn [merge_lookup is_hot_night anomaly]. split.
    + split; [destruct (mean o); discriminate|].
      intros (g & Hg' & _). discriminate.
    + intros _. split; [apply fsub_nan | destruct (mean o); reflexivity].
Qed.

Lemma hot_flag_needs_baseline_witness :
  nth_error january 4
  = Some {| aoi_id := "aoi_mid"; group := Some 1%Z; mean := Fin 5 |}
  /\ exists r : obs2,
       nth_error (main_df2 month_min5 january) 4 = Some r
       /\ is_hot_night r = true.
Proof.
  split; [reflexivity|].
  destruct (hot_flag_needs_baseline month_min5 january 4
              {| aoi_id := "aoi_mid"; group := Some 1%Z; mean := Fin 5 |}
              eq_refl) as (r & Hr & Hhot & _).
  exists r. split; [exact Hr|].
  apply Hhot. exists 1%Z. split; [reflexivity|].
  split; [vm_compute; discriminate | vm_compute; reflexivity].
Defined.

(** ** The percentile is not below the smallest value *)

Definition at_least (lo : Q) (x : float) : Prop :=
  exists v, x = Fin v /\ (lo <= v)%Q.

Lemma at_least_finite (lo : Q) (s : list float) :
  Forall (at_least lo) s -> Forall (fun x => isfinite x = true) s.
Proof.
  intros H. eapply List.Forall_impl; [|exact H].
  intros x (v & -> & _). reflexivity.
Qed.

Lemma nanpercentile_floor (lo p : Q) (s : list float) :
  s <> [] -> Forall (at_least lo) s -> (0 <= p)%Q -> (p <= 100)%Q ->
  at_least lo (nanpercentile s p).
Proof.
  intros Hne Hall H0 H100. unfold nanpercentile.
  rewrite (dropna_all_finite s (at_least_finite lo s Hall)).
  pose proof (sort_Forall sort_leb _ s Hall) as Hv.
  pose proof (length_sort sort_leb s) as Hlen.
  destruct (sort sort_leb s) as [|x v] eqn:E.
  { destruct s; [congruence | discriminate]. }
  rewrite <- E in *. clear E x v.
  set (srt := sort sort_leb s) in *.
  assert (Hn : (1 <= length srt)%nat)
    by (rewrite Hlen; destruct s; [congruence | simpl; lia]).
  pose proof (percentile_index (length srt) p Hn H0 H100) as Hidx.
  set (pos := (inject_Z (Z.of_nat (length srt) - 1) * (p / 100))%Q) in *.
  assert (Ha : at_least lo (nth (Z.to_nat (Qfloor pos)) srt NaN)).
  { apply (proj1 (List.Forall_nth _ _) Hv). exact Hidx. }
  destruct Ha as (a & Ea & Ha). rewrite Ea.
  assert (Hb : at_least lo (nth (Z.to_nat (Qfloor pos + 1)) srt (Fin a))).
  { destruct (Nat.lt_ge_cases (Z.to_nat (Qfloor pos + 1)) (length srt))
      as [Hlt|Hge].
    - apply (proj1 (List.Forall_nth _ _) Hv). exact Hlt.
    - rewrite nth_overflow by exact Hge. exists a. auto. }
  destruct Hb as (b & -> & Hb). cbn [fsub fneg fadd fmul].
  eexists. split; [reflexivity|].
  destruct (ZonalFacts.frac_within pos) as [Hf0 Hf1].
  set (f := (pos - inject_Z (Qfloor pos))%Q) in *.
  assert (H1 : (0 <= (a - lo) * (1 - f))%Q)
    by (apply Qmult_le_0_compat; lra).
  assert (H2 : (0 <= (b - lo) * f)%Q) by (apply Qmult_le_0_compat; lra).
  apply Qle_trans with (lo + ((a - lo) * (1 - f) + (b - lo) * f))%Q;
    [lra|].
  apply Qle_lteq. right. ring.
Qed.

Lemma in_group_members (df : list obs) (o : obs) (g : Z) :
  In o df -> group o = Some g -> In o (group_members (aoi_id o, g) df).
Proof.
  intros Hin Hg. unfold group_members, members. apply filter_In.
  split; [exact Hin|]. unfold has_key, key_of. rewrite Hg.
  apply key_eqb_eq. reflexivity.
Qed.

(** X14.  The coldest observation of a group is never flagged hot: when every
    value of the group is a number at least as large as the
    observation's, the flag is off.  So the hot flags never cover a whole
    group of finite values. *)
Theorem coldest_is_never_hot (cfg : Config) (df : list obs) (i : nat)
    (o : obs) (g : Z) (m : Q) :
  nth_error df i = Some o ->
  group o = Some g ->
  mean o = Fin m ->
  Forall (at_least m) (map mean (group_members (aoi_id o, g) df)) ->
  exists r : obs2,
    nth_error (main_df2 cfg df) i = Some r /\ is_hot_night r = false.
Proof.
  intros Hi Hg Hm Hall. pose proof (nth_error_In _ _ Hi) as Hin.
  unfold main_df2. rewrite nth_error_map, Hi. simpl.
  eexists. split; [reflexivity|]. unfold merge_row.
  assert (Hk : key_of o = Some (aoi_id o, g))
    by (unfold key_of; rewrite Hg; reflexivity).
  rewrite (find_base cfg df o _ Hin Hk).
  cbn [is_hot_night]. unfold blank_small. cbn [n_obs agg].
  destruct (_ <? _)%Z; cbn [baseline_p90 agg];
    [destruct (mean o); reflexivity|].
  destruct (nanpercentile_floor m 90
              (map mean (group_members (aoi_id o, g) df)))
    as (q & -> & Hq); [|exact Hall | discriminate | discriminate|].
  { intros E. pose proof (in_map mean _ _ (in_group_members df o g Hin Hg))
      as Hmem.
    rewrite E in Hmem. destruct Hmem. }
  rewrite Hm. simpl. destruct (Qle_bool q m) eqn:Hle; [|reflexivity].
  apply Qle_bool_iff in Hle. simpl. apply negb_false_iff, Qeq_bool_iff.
  lra.
Qed.

Lemma coldest_is_never_hot_witness :
  (nth_error january 0
   = Some {| aoi_id := "aoi_mid"; group := Some 1%Z; mean := Fin 1 |}
   /\ Forall (at_least 1)
        (map mean (group_members ("aoi_mid", 1%Z) january)))
  /\ exists r : obs2,
       nth_error (main_df2 month_min5 january) 0 = Some r
       /\ is_hot_night r = false.
Proof.
  assert (Hall : Forall (at_least 1)
                   (map mean (group_members ("aoi_mid", 1%Z) january))).
  { vm_compute. repeat constructor; eexists; (split; [reflexivity|]);
      discriminate. }
  split; [split; [reflexivity | exact Hall]|].
  exact (coldest_is_never_hot month_min5 january 0
           {| aoi_id := "aoi_mid"; group := Some 1%Z; mean := Fin 1 |}
           1%Z 1 eq_refl eq_refl eq_refl Hall).
Defined.

End AnomalyFacts.

(* ===================================================================== *)
(** * analysis/02_compute_anomaly_and_risk.py: the recent hot nights      *)
(* ===================================================================== *)

Module HotNights.

(** The columns of [df2] the frequency reads, in the order
    [df2.sort_values(["aoi_id", "dt"])] leaves the rows; [dt] is missing
    for a date that did not parse ([NaT]). *)
Record row : Type := {
  aoi_id : string;
  dt : option Z;
  is_hot_night : bool
}.

(** The rows of one AOI, as [df2.groupby("aoi_id")] hands them on. *)
Definition group_rows (a : string) (df2 : list row) : list row :=
  List.filter (fun r => String.eqb (aoi_id r) a) df2.

Definition later (t : Z) (d : option Z) : bool :=
  match d with Some t' => (t <? t')%Z | None => false end.

Definition same (t : Z) (d : option Z) : bool :=
  match d with Some t' => (t' =? t)%Z | None => false end.

(** How many rows of the group come before row [k] in the descending
    order of [dt]: the rows with a later date, and the rows with the
    same date that stand earlier in the table ([method="first"]). *)
Definition before (dts : list (option Z)) (k : nat) (t : Z) : nat :=
  length (List.filter (later t) dts)
  + length (List.filter (same t) (firstn k dts)).

(** [g["dt"].rank(ascending=False, method="first")] for row [k] of the
    group; a row without a date has no rank ([NaN]). *)
Definition rank_desc (g : list row) (k : nat) (r : row) : option nat :=
  match dt r with
  | Some t => Some (1 + before (map dt g) k t)%nat
  | None => None
  end.

Definition indexed {A} (l : list A) : list (nat * A) :=
  combine (seq 0 (length l)) l.

(** [recent = df2[df2["rank_desc"] <= 14]], for one AOI. *)
Definition recent (g : list row) : list row :=
  map snd
    (List.filter
       (fun kr => match rank_desc g (fst kr) (snd kr) with
                  | Some rk => (rk <=? 14)%nat
                  | None => false
                  end)
       (indexed g)).

(** [recent.groupby("aoi_id").agg(hot_nights_14=("is_hot_night", "sum"))]
    merged onto [latest], with [.fillna(0).astype(int)]: an AOI without
    a recent row gets 0, which is also the sum over no row. *)
Definition hot_nights_14 (df2 : list row) (a : string) : Z :=
  fold_right Z.add 0%Z
    (map (fun r => if is_hot_night r then 1%Z else 0%Z)
         (recent (group_rows a df2))).

Lemma later_same_count (t t' : Z) (dts : list (option Z)) :
  (t < t')%Z ->
  (length (List.filter (later t') dts) + length (List.filter (same t') dts)
   <= length (List.filter (later t) dts))%nat.
Proof.
  intros Hlt. induction dts as [|d dts IH]; [simpl; lia|].
  destruct d as [u|]; cbn [List.filter later same]; [|exact IH].
  destruct (Z.ltb_spec t' u), (Z.eqb_spec u t'), (Z.ltb_spec t u);
    cbn [length]; lia.
Qed.

Lemma same_count_before (t : Z) (dts : list (option Z)) (k : nat) :
  nth_error dts k = Some (Some t) ->
  (length (List.filter (same t) (firstn k dts)) + 1
   <= length (List.filter (same t) dts))%nat.
Proof.
  revert k. induction dts as [|d dts IH]; intros [|k] H; try discriminate.
  - cbn in H. injection H as ->. cbn [firstn List.filter same length].
    rewrite Z.eqb_refl. cbn [length]. lia.
  - cbn in H. specialize (IH k H). cbn [firstn List.filter].
    destruct (same t d); cbn [length]; lia.
Qed.

Lemma nth_error_firstn_lt {A} (l : list A) (k n : nat) :
  (k < n)%nat -> nth_error (firstn n l) k = nth_error l k.
Proof.
  revert k n. induction l as [|x l IH]; intros k n Hlt.
  - now rewrite firstn_nil.
  - destruct n as [|n]; [lia|]. destruct k as [|k]; [reflexivity|].
    cbn. apply IH. lia.
Qed.

Lemma same_count_mono (t : Z) (dts : list (option Z)) (k1 k2 : nat) :
  (k1 < k2)%nat -> nth_error dts k1 = Some (Some t) ->
  (length (List.filter (same t) (firstn k1 dts)) + 1
   <= length (List.filter (same t) (firstn k2 dts)))%nat.
Proof.
  intros Hlt H.
  pose proof (same_count_before t (firstn k2 dts) k1) as Hb.
  rewrite nth_error_firstn_lt in Hb by exact Hlt.
  rewrite firstn_firstn in Hb.
  replace (Nat.min k1 k2) with k1 in Hb by lia.
  exact (Hb H).
Qed.

Lemma before_lt (dts : list (option Z)) (k1 k2 : nat) (t1 t2 : Z) :
  (k1 < k2)%nat ->
  nth_error dts k1 = Some (Some t1) -> nth_error dts k2 = Some (Some t2) ->
  before dts k1 t1 <> before dts k2 t2.
Proof.
  intros Hlt H1 H2. unfold before.
  destruct (Z.lt_trichotomy t1 t2) as [Ht | [Ht | Ht]].
  - pose proof (later_same_count t1 t2 dts Ht).
    pose proof (same_count_before t2 dts k2 H2). lia.
  - subst t2. pose proof (same_count_mono t1 dts k1 k2 Hlt H1). lia.
  - pose proof (later_same_count t2 t1 dts Ht).
    pose proof (same_count_before t1 dts k1 H1). lia.
Qed.

Lemma before_injective (dts : list (option Z)) (k1 k2 : nat) (t1 t2 : Z) :
  nth_error dts k1 = Some (Some t1) -> nth_error dts k2 = Some (Some t2) ->
  before dts k1 t1 = before dts k2 t2 -> k1 = k2.
Proof.
  intros H1 H2 E.
  destruct (Nat.lt_trichotomy k1 k2) as [Hlt | [Heq | Hlt]]; [|exact Heq|].
  - exfalso. exact (before_lt dts k1 k2 t1 t2 Hlt H1 H2 E).
  - exfalso. exact (before_lt dts k2 k1 t2 t1 Hlt H2 H1 (eq_sym E)).
Qed.

Lemma fst_combine_seq {A} (l : list A) (s : nat) :
  map fst (combine (seq s (length l)) l) = seq s (length l).
Proof.
  revert s. induction l as [|x l IH]; intros s; [reflexivity|].
  cbn. now rewrite IH.
Qed.

Lemma in_combine_seq_nth {A} (l : list A) (s k : nat) (x : A) :
  In (k, x) (combine (seq s (length l)) l) ->
  (s <= k)%nat /\ nth_error l (k - s) = Some x.
Proof.
  revert s. induction l as [|y l IH]; intros s H; [destruct H|].
  cbn in H. destruct H as [H | H].
  - injection H as -> ->. split; [lia|]. now rewrite Nat.sub_diag.
  - destruct (IH _ H) as [Hle Hn]. split; [lia|].
    replace (k - s)%nat with (S (k - S s)) by lia. exact Hn.
Qed.

Lemma in_indexed {A} (l : list A) (k : nat) (x : A) :
  In (k, x) (indexed l) -> nth_error l k = Some x.
Proof.
  intros H. destruct (in_combine_seq_nth l 0 k x H) as [_ Hn].
  now rewrite Nat.sub_0_r in Hn.
Qed.

Lemma NoDup_indexed {A} (l : list A) : List.NoDup (indexed l).
Proof.
  apply (List.NoDup_map_inv fst). unfold indexed.
  rewrite fst_combine_seq. apply List.seq_NoDup.
Qed.

(** At most fourteen rows of a group have a rank of fourteen or less. *)
Lemma recent_at_most_14 (g : list row) : (length (recent g) <= 14)%nat.
Proof.
  unfold recent. rewrite length_map.
  set (keep := fun kr : nat * row =>
                 match rank_desc g (fst kr) (snd kr) with
                 | Some rk => (rk <=? 14)%nat
                 | None => false
                 end).
  set (S := List.filter keep (indexed g)).
  set (f := fun kr : nat * row =>
              match dt (snd kr) with
              | Some t => before (map dt g) (fst kr) t
              | None => 0%nat
              end).
  assert (Hin : forall kr, In kr S ->
            exists t, dt (snd kr) = Some t /\
                      nth_error (map dt g) (fst kr) = Some (Some t) /\
                      nth_error g (fst kr) = Some (snd kr) /\
                      (f kr < 14)%nat).
  { intros [k r] H. apply List.filter_In in H. destruct H as [Hi Hk].
    apply in_indexed in Hi. unfold keep, rank_desc in Hk. cbn [fst snd] in *.
    unfold f. cbn [fst snd].
    destruct (dt r) as [t|] eqn:Et; [|discriminate].
    exists t. repeat split; auto.
    - rewrite nth_error_map, Hi. cbn. now rewrite Et.
    - apply Nat.leb_le in Hk. lia. }
  rewrite <- (length_map f S).
  change 14%nat with (length (seq 0 14)) at 1.
  apply List.NoDup_incl_length.
  - apply List.NoDup_map_NoDup_ForallPairs.
    + intros [k1 r1] [k2 r2] H1 H2 E.
      destruct (Hin _ H1) as (t1 & Et1 & Hn1 & Hg1 & _).
      destruct (Hin _ H2) as (t2 & Et2 & Hn2 & Hg2 & _).
      cbn [fst snd] in *. unfold f in E. cbn [fst snd] in E.
      rewrite Et1, Et2 in E.
      pose proof (before_injective _ _ _ _ _ Hn1 Hn2 E) as ->.
      rewrite Hg1 in Hg2. now injection Hg2 as ->.
    + apply List.NoDup_filter, NoDup_indexed.
  - intros v Hv. apply List.in_map_iff in Hv. destruct Hv as (kr & <- & Hkr).
    destruct (Hin _ Hkr) as (_ & _ & _ & _ & Hlt).
    apply List.in_seq. lia.
Qed.

Lemma flags_sum_range (l : list row) :
  (0 <= fold_right Z.add 0
          (map (fun r => if is_hot_night r then 1 else 0) l)
     <= Z.of_nat (length l))%Z.
Proof.
  induction l as [|r l IH]; cbn [map fold_right length]; [lia|].
  destruct (is_hot_night r); lia.
Qed.

(** X15.  Whatever the table holds (any number of observations per AOI,
    repeated or missing dates, any flags), the hot-night frequency of
    every AOI is an integer between 0 and 14. *)
Theorem hot_nights_14_range (df2 : list row) (a : string) :
  (0 <= hot_nights_14 df2 a <= 14)%Z.
Proof.
  unfold hot_nights_14.
  pose proof (flags_sum_range (recent (group_rows a df2))) as H.
  pose proof (recent_at_most_14 (group_rows a df2)). lia.
Qed.

End HotNights.

(* ===================================================================== *)
(** * analysis/30_collapse_and_filter_observations.py: duplicate tiles    *)
(* ===================================================================== *)

Module CollapseTiles.

(** The columns of one tile hit that [_collapse] reads. *)
Module Tile.
Record t : Type := {
  raster : string;
  count : float;
  mean : float;
  median : float;
  p90 : float
}.
End Tile.

(** The pairs [(v, w)] kept by the mask
    [np.isfinite(v) & np.isfinite(w) & (w > 0)]. *)
Fixpoint masked (values weights : list float) : list (Q * Q) :=
  match values, weights with
  | v :: values', w :: weights' =>
      match v, w with
      | Fin a, Fin b =>
          if fltb (Fin 0) (Fin b)
          then (a, b) :: masked values' weights'
          else masked values' weights'
      | _, _ => masked values' weights'
      end
  | _, _ => []
  end.

(** [weighted_mean(values, weights)]: [np.average] of the kept values
    with their weights, [sum(v * w) / sum(w)], in exact arithmetic (the
    float that numpy returns can differ from it in its last digits). *)
Definition weighted_mean (values weights : list float) : float :=
  let m := masked values weights in
  if (length m =? 0)%nat then NaN
  else Fin (Qsum (map (fun vw => (fst vw * snd vw)%Q) m) / Qsum (map snd m)).

(** One row of [collapsed], without the grouping keys. *)
Record collapsed : Type := {
  n_tiles : nat;
  pixels : float;
  mean : float;
  median : float;
  p90 : float
}.

Definition _collapse (group : list Tile.t) : collapsed :=
  let w := map Tile.count group in
  {| n_tiles := length (nodup string_dec (map Tile.raster group));
     pixels := fsum (map (fillna 0) (map Tile.count group));
     mean := weighted_mean (map Tile.mean group) w;
     median := weighted_mean (map Tile.median group) w;
     p90 := weighted_mean (map Tile.p90 group) w |}.

(** A pixel count as the zonal step writes it: a number that is not
    negative, or [NaN]. *)
Definition pixel_count (w : float) : Prop :=
  w = NaN \/ exists c, w = Fin c /\ (0 <= c)%Q.

(** ** Results *)

Lemma fltb_0 (b : Q) : fltb (Fin 0) (Fin b) = true <-> (0 < b)%Q.
Proof.
  cbn [fltb]. rewrite andb_true_iff, negb_true_iff, Qle_bool_iff.
  split.
  - intros [Hle Hne]. apply Qle_lteq in Hle. destruct Hle as [Hlt | Heq];
      [exact Hlt|].
    apply Qeq_bool_iff in Heq. congruence.
  - intros Hlt. split; [lra|].
    destruct (Qeq_bool 0 b) eqn:E; [|reflexivity].
    apply Qeq_bool_iff in E. lra.
Qed.

Lemma pixels_sum (weights : list float) :
  Forall pixel_count weights ->
  exists p, fsum (map (fillna 0) weights) = Fin p /\ (0 <= p)%Q
            /\ ((p == 0)%Q -> forall values, masked values weights = []).
Proof.
  induction 1 as [|w weights Hw _ (p & Hp & Hp0 & Hz)].
  - exists 0%Q. repeat split; try lra. intros _ [|v values]; reflexivity.
  - cbn [map fsum fold_right]. fold (fsum (map (fillna 0) weights)).
    rewrite Hp. destruct Hw as [-> | (c & -> & Hc)]; cbn [fillna fadd].
    + exists (0 + p)%Q. repeat split; [lra|].
      intros H0 [|v values]; [reflexivity|].
      cbn [masked]. destruct v; apply Hz; lra.
    + exists (c + p)%Q. repeat split; [lra|].
      intros H0 [|v values]; [reflexivity|].
      assert (Hrec : masked values weights = []) by (apply Hz; lra).
      cbn [masked]. destruct v; try exact Hrec.
      destruct (fltb (Fin 0) (Fin c)) eqn:E; [|exact Hrec].
      apply fltb_0 in E. lra.
Qed.

(** X19.  When the pixel counts of the tile hits are numbers that are not
    negative, or [NaN], the collapsed row has a pixel total that is a
    number and not negative, and a total of zero leaves mean, median and
    p90 [NaN]: a collapsed statistic that is a number has pixels behind
    it. *)
Theorem collapse_statistics_need_pixels (group : list Tile.t) :
  Forall pixel_count (map Tile.count group) ->
  exists p, pixels (_collapse group) = Fin p /\ (0 <= p)%Q
            /\ ((p == 0)%Q ->
                mean (_collapse group) = NaN
                /\ median (_collapse group) = NaN
                /\ p90 (_collapse group) = NaN).
Proof.
  intros H. destruct (pixels_sum _ H) as (p & Hp & Hp0 & Hz).
  exists p. cbn [_collapse pixels mean median p90].
  repeat split; try assumption; unfold weighted_mean; rewrite Hz by assumption;
    reflexivity.
Qed.

Lemma collapse_statistics_need_pixels_witness :
  exists p,
    pixels (_collapse
              [ {| Tile.raster := "a_LST.tif"; Tile.count := NaN;
                   Tile.mean := NaN; Tile.median := NaN; Tile.p90 := NaN |};
                {| Tile.raster := "b_LST.tif"; Tile.count := Fin 12;
                   Tile.mean := Fin 301; Tile.median := Fin 300;
                   Tile.p90 := Fin 305 |} ]) = Fin p
    /\ (0 <= p)%Q.
Proof.
  destruct (collapse_statistics_need_pixels
              [ {| Tile.raster := "a_LST.tif"; Tile.count := NaN;
                   Tile.mean := NaN; Tile.median := NaN; Tile.p90 := NaN |};
                {| Tile.raster := "b_LST.tif"; Tile.count := Fin 12;
                   Tile.mean := Fin 301; Tile.median := Fin 300;
                   Tile.p90 := Fin 305 |} ]) as (p & Hp & Hp0 & _).
  - apply List.Forall_cons; [left; reflexivity|].
    apply List.Forall_cons; [|apply List.Forall_nil].
    right. exists 12%Q. split; [reflexivity | discriminate].
  - exists p. split; assumption.
Defined.

End CollapseTiles.

(* ===================================================================== *)
(** * Further results on the usability filter                             *)
(* ===================================================================== *)

Module CollapseFacts.
Import Collapse.

Lemma fleb_trans (x y z : float) :
  fleb x y = true -> fleb y z = true -> fleb x z = true.
Proof.
  destruct x as [a| | |], y as [b| | |], z as [c| | |]; cbn [fleb];
    try discriminate; try reflexivity.
  rewrite !Qle_bool_iff. apply Qle_trans.
Qed.

Lemma fmaximum_left (a : Q) (x : float) :
  isnan (fmaximum (Fin a) x) = false ->
  fleb (Fin a) (fmaximum (Fin a) x) = true.
Proof.
  destruct x as [b| | |]; cbn [fmaximum fleb isnan]; try discriminate;
    intros _; try reflexivity.
  - destruct (Qle_bool a b) eqn:E; cbn [fleb]; [exact E|].
    apply Qle_bool_iff, Qle_refl.
  - apply Qle_bool_iff, Qle_refl.
Qed.

Lemma fleb_not_nan (x y : float) : fleb x y = true -> isnan x = false.
Proof. destruct x, y; cbn; congruence. Qed.

Lemma nth_main_usable (args : Args) (collapsed : list collapsed_row)
    (i : nat) (u : usable_row) :
  nth_error (main_usable args collapsed) i = Some u ->
  exists r, nth_error collapsed i = Some r
            /\ collapsed_obs u = r
            /\ min_pixels_threshold u
               = fmaximum (Fin (min_abs_pixels args))
                   (fmul (Fin (min_frac_of_p95 args))
                         (fillna 0 (obs_p95_pixels u)))
            /\ obs_p95_pixels u
               = match merge_lookup String.eqb p95_aoi_id (p95 collapsed)
                         (key_of r) with
                 | Some b => p95_pixels b
                 | None => NaN
                 end
            /\ is_usable u = fleb (min_pixels_threshold u)
                                  (fillna 0 (pixels r)).
Proof.
  unfold main_usable. rewrite nth_error_map.
  destruct (nth_error collapsed i) as [r|]; [|discriminate].
  cbn [option_map]. intros [= <-]. exists r.
  cbn [collapsed_obs min_pixels_threshold obs_p95_pixels is_usable].
  repeat split.
Qed.

(** X20.  No usable observation has fewer pixels than [min_abs_pixels],
    whatever the other observations of its AOI are; and with a positive
    [min_abs_pixels] an observation whose pixel count is missing is never
    usable. *)
Theorem usable_has_min_abs_pixels (args : Args)
    (collapsed : list collapsed_row) (i : nat) (u : usable_row) :
  nth_error (main_usable args collapsed) i = Some u ->
  is_usable u = true ->
  fleb (Fin (min_abs_pixels args)) (fillna 0 (pixels (collapsed_obs u)))
  = true
  /\ ((0 < min_abs_pixels args)%Q ->
      fleb (Fin (min_abs_pixels args)) (pixels (collapsed_obs u)) = true).
Proof.
  intros Hu Hus.
  destruct (nth_main_usable _ _ _ _ Hu) as (r & _ & -> & Ht & _ & Hflag).
  rewrite Hus in Hflag. symmetry in Hflag.
  assert (H : fleb (Fin (min_abs_pixels args)) (fillna 0 (pixels r)) = true).
  { apply fleb_trans with (min_pixels_threshold u); [|exact Hflag].
    rewrite Ht. apply fmaximum_left. rewrite <- Ht.
    exact (fleb_not_nan _ _ Hflag). }
  split; [exact H|]. intros Hpos.
  destruct (pixels r); cbn [fillna] in H; try exact H.
  cbn [fleb] in H. apply Qle_bool_iff in H. lra.
Qed.

Lemma usable_has_min_abs_pixels_witness :
  exists u,
    nth_error (main_usable default_args ten_observations) 0 = Some u
    /\ fleb (Fin 5) (pixels (collapsed_obs u)) = true.
Proof.
  eexists. split; [reflexivity|].
  apply (usable_has_min_abs_pixels default_args ten_observations 0);
    [reflexivity | vm_compute; reflexivity | reflexivity].
Defined.

(** X21.  Within one AOI the filter is monotone in the pixel count: when an
    observation is usable, every observation of the same AOI with at
    least as many pixels is usable too. *)
Theorem usable_monotone_in_pixels (args : Args)
    (collapsed : list collapsed_row) (i j : nat) (u1 u2 : usable_row) :
  nth_error (main_usable args collapsed) i = Some u1 ->
  nth_error (main_usable args collapsed) j = Some u2 ->
  aoi_id (collapsed_obs u1) = aoi_id (collapsed_obs u2) ->
  fleb (pixels (collapsed_obs u1)) (pixels (collapsed_obs u2)) = true ->
  is_usable u1 = true -> is_usable u2 = true.
Proof.
  intros H1 H2 Hid Hle Hus.
  destruct (nth_main_usable _ _ _ _ H1) as (r1 & _ & E1 & Ht1 & Hp1 & Hf1).
  destruct (nth_main_usable _ _ _ _ H2) as (r2 & _ & E2 & Ht2 & Hp2 & Hf2).
  rewrite E1, E2 in *. clear E1 E2.
  assert (Hp : obs_p95_pixels u1 = obs_p95_pixels u2).
  { rewrite Hp1, Hp2. unfold key_of. now rewrite Hid. }
  assert (Ht : min_pixels_threshold u1 = min_pixels_threshold u2)
    by (rewrite Ht1, Ht2, Hp; reflexivity).
  rewrite Hf2, <- Ht. rewrite Hus in Hf1. symmetry in Hf1.
  apply fleb_trans with (fillna 0 (pixels r1)); [exact Hf1|].
  destruct (pixels r1), (pixels r2); cbn [fleb fillna] in *;
    try discriminate; try reflexivity; exact Hle.
Qed.

Lemma usable_monotone_in_pixels_witness :
  exists u1 u2,
    nth_error (main_usable default_args ten_observations) 0 = Some u1
    /\ nth_error (main_usable default_args ten_observations) 1 = Some u2
    /\ is_usable u2 = true.
Proof.
  eexists. eexists. split; [reflexivity|]. split; [reflexivity|].
  apply (usable_monotone_in_pixels default_args ten_observations 0 1
           _ _ eq_refl eq_refl); [reflexivity | reflexivity|].
  vm_compute. reflexivity.
Defined.

(** ** The percentile is not above the largest value *)

Definition at_most (hi : Q) (x : float) : Prop :=
  exists v, x = Fin v /\ (v <= hi)%Q.

Lemma at_most_finite (hi : Q) (s : list float) :
  Forall (at_most hi) s -> Forall (fun x => isfinite x = true) s.
Proof.
  intros H. eapply List.Forall_impl; [|exact H].
  intros x (v & -> & _). reflexivity.
Qed.

Lemma nanpercentile_ceiling (hi p : Q) (s : list float) :
  s <> [] -> Forall (at_most hi) s -> (0 <= p)%Q -> (p <= 100)%Q ->
  at_most hi (nanpercentile s p).
Proof.
  intros Hne Hall H0 H100. unfold nanpercentile.
  rewrite (dropna_all_finite s (at_most_finite hi s Hall)).
  pose proof (sort_Forall sort_leb _ s Hall) as Hv.
  pose proof (length_sort sort_leb s) as Hlen.
  destruct (sort sort_leb s) as [|x v] eqn:E.
  { destruct s; [congruence | discriminate]. }
  rewrite <- E in *. clear E x v.
  set (srt := sort sort_leb s) in *.
  assert (Hn : (1 <= length srt)%nat)
    by (rewrite Hlen; destruct s; [congruence | simpl; lia]).
  pose proof (percentile_index (length srt) p Hn H0 H100) as Hidx.
  set (pos := (inject_Z (Z.of_nat (length srt) - 1) * (p / 100))%Q) in *.
  assert (Ha : at_most hi (nth (Z.to_nat (Qfloor pos)) srt NaN)).
  { apply (proj1 (List.Forall_nth _ _) Hv). exact Hidx. }
  destruct Ha as (a & Ea & Ha). rewrite Ea.
  assert (Hb : at_most hi (nth (Z.to_nat (Qfloor pos + 1)) srt (Fin a))).
  { destruct (Nat.lt_ge_cases (Z.to_nat (Qfloor pos + 1)) (length srt))
      as [Hlt|Hge].
    - apply (proj1 (List.Forall_nth _ _) Hv). exact Hlt.
    - rewrite nth_overflow by exact Hge. exists a. auto. }
  destruct Hb as (b & -> & Hb). cbn [fsub fneg fadd fmul].
  eexists. split; [reflexivity|].
  destruct (ZonalFacts.frac_within pos) as [Hf0 Hf1].
  set (f := (pos - inject_Z (Qfloor pos))%Q) in *.
  assert (H1 : (0 <= (hi - a) * (1 - f))%Q)
    by (apply Qmult_le_0_compat; lra).
  assert (H2 : (0 <= (hi - b) * f)%Q) by (apply Qmult_le_0_compat; lra).
  apply Qle_trans with (hi - ((hi - a) * (1 - f) + (hi - b) * f))%Q;
    [|lra].
  apply Qle_lteq. right. ring.
Qed.

(** X22.  The filter keeps the best-covered observation of an AOI: when the
    pixel counts of the AOI are numbers, [min_frac_of_p95] is between 0
    and 1, and the observation with the most pixels has at least
    [min_abs_pixels] of them (and not a negative count), that observation
    is usable. *)
Theorem best_observation_is_usable (args : Args)
    (collapsed : list collapsed_row) (i : nat) (r : collapsed_row)
    (px : Q) :
  nth_error collapsed i = Some r ->
  pixels r = Fin px ->
  Forall (at_most px) (map pixels (aoi_rows (aoi_id r) collapsed)) ->
  (min_abs_pixels args <= px)%Q ->
  (0 <= px)%Q ->
  (0 <= min_frac_of_p95 args)%Q ->
  (min_frac_of_p95 args <= 1)%Q ->
  exists u, nth_error (main_usable args collapsed) i = Some u
            /\ is_usable u = true.
Proof.
  intros Hi Hpx Hall Habs Hpx0 Hf0 Hf1.
  destruct (usable_row_spec args collapsed i r Hi)
    as (u & Hu & _ & _ & _ & Hq).
  destruct (Hq (at_most_finite px _ Hall))
    as (p95v & t & px' & Hp & _ & Ht & Hpx' & Husable).
  rewrite Hpx in Hpx'. injection Hpx' as <-.
  exists u. split; [exact Hu|]. apply Husable.
  destruct (nanpercentile_ceiling px 95
              (map pixels (aoi_rows (aoi_id r) collapsed)))
    as (q & Hq' & Hle); [|exact Hall | discriminate | discriminate|].
  { intros E. pose proof (in_map pixels _ _
                            (in_aoi_rows collapsed r (nth_error_In _ _ Hi)))
      as Hmem.
    rewrite E in Hmem. destruct Hmem. }
  rewrite Hp in Hq'. injection Hq' as <-.
  rewrite Ht. apply Q.max_lub; [exact Habs|].
  set (f := min_frac_of_p95 args) in *.
  destruct (Qlt_le_dec p95v 0) as [Hneg | Hpos].
  - assert (H : (0 <= f * (0 - p95v))%Q) by (apply Qmult_le_0_compat; lra).
    apply Qle_trans with (0 - f * (0 - p95v))%Q;
      [apply Qle_lteq; right; ring | lra].
  - assert (H : (0 <= (1 - f) * p95v)%Q) by (apply Qmult_le_0_compat; lra).
    apply Qle_trans with (p95v - (1 - f) * p95v)%Q;
      [apply Qle_lteq; right; ring | lra].
Qed.

Lemma best_observation_is_usable_witness :
  exists u,
    nth_error (main_usable default_args ten_observations) 0 = Some u
    /\ is_usable u = true.
Proof.
  apply (best_observation_is_usable default_args ten_observations 0
           {| aoi_id := "aoi_mid"; pixels := of_Z 50 |} (inject_Z 50)).
  - reflexivity.
  - reflexivity.
  - vm_compute.
    repeat (apply List.Forall_cons;
            [eexists; split; [reflexivity | discriminate]|]).
    apply List.Forall_nil.
  - discriminate.
  - discriminate.
  - discriminate.
  - discriminate.
Defined.

End CollapseFacts.

(* ===================================================================== *)
(** * Further results on the matching of controls                         *)
(* ===================================================================== *)

Module MatchingFacts.
Import Matching.

(** The rows of a buffer group that are data centers, and those that are
    controls. *)
Definition data_centers (g : list aoi) : list aoi :=
  List.filter (fun r => (is_data_center r =? 1)%Z) g.

Definition control_rows (g : list aoi) : list aoi :=
  List.filter (fun r => (is_data_center r =? 0)%Z) g.

(** The rows of the buffer [b]. *)
Definition buffer_rows (b : Q) (df : list aoi) : list aoi :=
  members Qeq_bool aoi_buffer_m b df.

(** The buffers of the table, in the order of the loop. *)
Definition buffers (df : list aoi) : list Q :=
  sort Qle_bool (group_keys Qeq_bool aoi_buffer_m df).

(** The number of matches a data center gets when controls may be
    reused: [k] of them, one when [k] is below one, and never more than
    there are controls. *)
Definition quota (args : Args) (n_controls : nat) : nat :=
  Nat.min n_controls (Z.to_nat (Z.max 1 (k args))).

(** A group whose distance rows have one entry per control. *)
Definition well_formed (g : buffer_group) : Prop :=
  Forall (fun dc => length (snd dc) = length (group_ctrl_ids g))
         (group_dcs g).

(** ** The candidate order is a permutation of the controls *)

Lemma argsort_Permutation (row : list root) :
  Permutation (argsort row) (seq 0 (length row)).
Proof.
  unfold argsort, sort.
  rewrite <- (HotNights.fst_combine_seq row 0) at 2.
  apply Permutation_map, merge_sort_Permutation.
Qed.

Lemma argsort_lt (row : list root) (j : nat) :
  In j (argsort row) <-> (j < length row)%nat.
Proof.
  split.
  - intros H. apply (Permutation_in _ (argsort_Permutation row)) in H.
    apply List.in_seq in H. lia.
  - intros H.
    apply (Permutation_in _ (Permutation_sym (argsort_Permutation row))).
    apply List.in_seq. lia.
Qed.

Lemma length_argsort (row : list root) :
  length (argsort row) = length row.
Proof.
  rewrite (Permutation_length (argsort_Permutation row)).
  apply List.length_seq.
Qed.

Lemma dist_le_refl (a : root) : dist_le a a.
Proof.
  unfold dist_le, dist_leb. destruct (radicand a); cbn; try reflexivity.
  apply Qle_bool_iff, Qle_refl.
Qed.

(** ** Where the records come from *)

Definition from_row (dc_id : string) (buffer : Q) (ctrl_ids : list string)
    (row : list root) (order : list nat) (r : MatchResult) : Prop :=
  data_center_aoi_id r = dc_id /\ buffer_m r = buffer
  /\ exists j, In j order /\ control_aoi_id r = nth j ctrl_ids ""
               /\ distance r = nth j row (Sqrt NaN).

Lemma from_row_tail (dc_id : string) (buffer : Q) (ctrl_ids : list string)
    (row : list root) (j : nat) (order : list nat) (rs : list MatchResult) :
  Forall (from_row dc_id buffer ctrl_ids row order) rs ->
  Forall (from_row dc_id buffer ctrl_ids row (j :: order)) rs.
Proof.
  intros H. eapply List.Forall_impl; [|exact H].
  intros r (H1 & H2 & i & Hi & H3). split; [exact H1|]. split; [exact H2|].
  exists i. split; [right; exact Hi | exact H3].
Qed.

Lemma pick_from_row (args : Args) (dc_id : string) (buffer : Q)
    (ctrl_ids : list string) (row : list root) (order : list nat)
    (picked rank : nat) (used : gset string) :
  Forall (from_row dc_id buffer ctrl_ids row order)
    (fst (pick args dc_id buffer ctrl_ids row order picked rank used)).
Proof.
  revert picked rank used.
  induction order as [|j order IH]; intros picked rank used; cbn [pick].
  { apply List.Forall_nil. }
  destruct (no_reuse args && bool_decide (nth j ctrl_ids "" ∈ used)).
  { apply from_row_tail, IH. }
  assert (Hr : forall rk,
             from_row dc_id buffer ctrl_ids row (j :: order)
               {| data_center_aoi_id := dc_id;
                  control_aoi_id := nth j ctrl_ids "";
                  buffer_m := buffer;
                  match_rank := rk;
                  distance := nth j row (Sqrt NaN) |}).
  { intros rk. split; [reflexivity|]. split; [reflexivity|].
    exists j. split; [left; reflexivity | split; reflexivity]. }
  destruct (k args <=? Z.of_nat (S picked))%Z.
  { cbn [fst]. apply List.Forall_cons; [apply Hr | apply List.Forall_nil]. }
  specialize (IH (S picked) (S rank) ({[nth j ctrl_ids ""]} ∪ used)).
  destruct (pick args dc_id buffer ctrl_ids row order (S picked) (S rank)
              ({[nth j ctrl_ids ""]} ∪ used)) as [rs used'].
  cbn [fst] in *. apply List.Forall_cons; [apply Hr|].
  apply from_row_tail, IH.
Qed.

Definition from_group (g : buffer_group) (r : MatchResult) : Prop :=
  buffer_m r = group_buffer_m g
  /\ In (data_center_aoi_id r) (map fst (group_dcs g))
  /\ (well_formed g -> In (control_aoi_id r) (group_ctrl_ids g)).

Lemma match_dcs_from (args : Args) (buffer : Q) (ctrl_ids : list string)
    (dcs : list (string * list root)) (used : gset string) :
  Forall (fun r => buffer_m r = buffer
                   /\ In (data_center_aoi_id r) (map fst dcs)
                   /\ (Forall (fun dc => length (snd dc) = length ctrl_ids)
                              dcs ->
                       In (control_aoi_id r) ctrl_ids))
    (fst (match_dcs args buffer ctrl_ids dcs used)).
Proof.
  revert used. induction dcs as [|[dc_id row] dcs IH]; intros used;
    cbn [match_dcs].
  { apply List.Forall_nil. }
  pose proof (pick_from_row args dc_id buffer ctrl_ids row (argsort row) 0 0
                used) as Hp.
  destruct (pick args dc_id buffer ctrl_ids row (argsort row) 0 0 used)
    as [rs used1].
  specialize (IH used1).
  destruct (match_dcs args buffer ctrl_ids dcs used1) as [rs' used2].
  cbn [fst] in *. apply List.Forall_app. split.
  - eapply List.Forall_impl; [|exact Hp].
    intros r (H1 & H2 & j & Hj & H3 & _). split; [exact H2|].
    split; [left; exact (eq_sym H1)|].
    intros Hwf. apply List.Forall_cons_iff in Hwf. destruct Hwf as [Hlen _].
    cbn [snd] in Hlen. rewrite H3. apply nth_In.
    rewrite <- Hlen. apply argsort_lt, Hj.
  - eapply List.Forall_impl; [|exact IH].
    intros r (H1 & H2 & H3). split; [exact H1|].
    split; [right; exact H2|].
    intros Hwf. apply List.Forall_cons_iff in Hwf. apply H3, Hwf.
Qed.

Lemma main_loop_from (args : Args) (groups : list (option buffer_group))
    (used : gset string) :
  Forall (fun r => exists g, In (Some g) groups /\ from_group g r)
    (fst (main_loop args groups used)).
Proof.
  revert used. induction groups as [|[g|] groups IH]; intros used;
    cbn [main_loop].
  - apply List.Forall_nil.
  - pose proof (match_dcs_from args (group_buffer_m g) (group_ctrl_ids g)
                  (group_dcs g) used) as Hg.
    destruct (match_dcs args (group_buffer_m g) (group_ctrl_ids g)
                (group_dcs g) used) as [rs used1].
    specialize (IH used1).
    destruct (main_loop args groups used1) as [rs' used2].
    cbn [fst] in *. apply List.Forall_app. split.
    + eapply List.Forall_impl; [|exact Hg].
      intros r Hr. exists g. split; [left; reflexivity | exact Hr].
    + eapply List.Forall_impl; [|exact IH].
      intros r (g' & Hin & Hr). exists g'. split; [right; exact Hin|exact Hr].
  - eapply List.Forall_impl; [|exact (IH used)].
    intros r (g' & Hin & Hr). exists g'. split; [right; exact Hin|exact Hr].
Qed.

Lemma length_dist_matrix (n : nat) (X_dc X_ctrl : list (list float)) :
  length (dist_matrix n X_dc X_ctrl) = length X_dc
  /\ Forall (fun row => length row = length X_ctrl)
            (dist_matrix n X_dc X_ctrl).
Proof.
  unfold dist_matrix. split; [apply length_map|].
  apply List.Forall_forall. intros row Hrow.
  apply List.in_map_iff in Hrow. destruct Hrow as (x & <- & _).
  apply length_map.
Qed.

Lemma prepare_group_spec (args : Args) (b : Q) (grp : list aoi)
    (g : buffer_group) :
  prepare_group args b grp = Some g ->
  group_buffer_m g = b
  /\ group_ctrl_ids g = map aoi_id (control_rows grp)
  /\ map fst (group_dcs g) = map aoi_id (data_centers grp)
  /\ well_formed g.
Proof.
  unfold prepare_group. fold (data_centers grp). fold (control_rows grp).
  destruct (length_dist_matrix (length (features args))
              (map covariates (data_centers grp))
              (map covariates (control_rows grp))) as [Hlen Hrows].
  rewrite !length_map in *.
  set (dist := dist_matrix _ _ _) in *.
  intros H.
  assert (Hg : g = {| group_buffer_m := b;
                      group_ctrl_ids := map aoi_id (control_rows grp);
                      group_dcs := combine (map aoi_id (data_centers grp))
                                     dist |}).
  { destruct (data_centers grp); [discriminate|].
    destruct (control_rows grp); [discriminate|].
    now injection H as <-. }
  rewrite Hg. cbn [group_buffer_m group_ctrl_ids group_dcs].
  repeat split.
  - clear -Hlen. revert Hlen. generalize (data_centers grp).
    induction dist as [|row dist IH]; intros [|x l] Hlen; try discriminate;
      [reflexivity|].
    cbn. f_equal. apply IH. cbn in Hlen. lia.
  - unfold well_formed. cbn [group_dcs group_ctrl_ids].
    rewrite length_map. apply List.Forall_forall. intros [dc_id row] Hin.
    apply in_combine_r in Hin. cbn [snd].
    rewrite List.Forall_forall in Hrows. apply Hrows, Hin.
Qed.

Lemma in_buffer_groups (args : Args) (df : list aoi) (g : buffer_group) :
  In (Some g) (buffer_groups args df) ->
  exists b, In b (buffers df)
            /\ prepare_group args b (buffer_rows b df) = Some g.
Proof.
  unfold buffer_groups. intros H. apply List.in_map_iff in H.
  destruct H as (b & Hb & Hin). exists b. split; assumption.
Qed.

Lemma in_buffer_rows (b : Q) (df : list aoi) (r : aoi) :
  In r (buffer_rows b df) ->
  In r df /\ exists b', aoi_buffer_m r = Some b' /\ (b' == b)%Q.
Proof.
  unfold buffer_rows, members. intros H. apply List.filter_In in H.
  destruct H as [Hin Hk]. split; [exact Hin|].
  unfold has_key in Hk. destruct (aoi_buffer_m r) as [b'|]; [|discriminate].
  exists b'. split; [reflexivity | apply Qeq_bool_iff, Hk].
Qed.

Lemma record_rows (args : Args) (df : list aoi) (r : MatchResult) :
  In r (main args df) ->
  exists dc c b_dc b_c,
    In dc df /\ In c df
    /\ aoi_id dc = data_center_aoi_id r /\ is_data_center dc = 1%Z
    /\ aoi_id c = control_aoi_id r /\ is_data_center c = 0%Z
    /\ aoi_buffer_m dc = Some b_dc /\ (b_dc == buffer_m r)%Q
    /\ aoi_buffer_m c = Some b_c /\ (b_c == buffer_m r)%Q.
Proof.
  intros Hr. unfold main in Hr.
  pose proof (main_loop_from args (buffer_groups args df) ∅) as Hall.
  rewrite List.Forall_forall in Hall.
  destruct (Hall r Hr) as (g & Hg & Hbuf & Hdc & Hc).
  destruct (in_buffer_groups args df g Hg) as (b & _ & Hprep).
  destruct (prepare_group_spec args b _ g Hprep) as (Eb & Eids & Edcs & Hwf).
  specialize (Hc Hwf). rewrite Eids in Hc. rewrite Edcs in Hdc.
  apply List.in_map_iff in Hdc. destruct Hdc as (dc & Hdcid & Hdcin).
  apply List.in_map_iff in Hc. destruct Hc as (c & Hcid & Hcin).
  apply List.filter_In in Hdcin. destruct Hdcin as [Hdcin Hdc1].
  apply List.filter_In in Hcin. destruct Hcin as [Hcin Hc0].
  destruct (in_buffer_rows b df dc Hdcin) as (Hdf1 & b1 & Hb1 & Hq1).
  destruct (in_buffer_rows b df c Hcin) as (Hdf2 & b2 & Hb2 & Hq2).
  exists dc, c, b1, b2. rewrite Hbuf, Eb.
  repeat split; try assumption; lia.
Qed.

(** X23.  Every match record pairs a data-center row with a control row of the
    same buffer: the treatment id is the id of a row with
    [is_data_center = 1], the control id is the id of a row with
    [is_data_center = 0], and both rows carry the record's buffer.  So a
    table without controls, or without data centers, gives no record. *)
Theorem matches_pair_rows_of_one_buffer (args : Args) (df : list aoi)
    (r : MatchResult) :
  In r (main args df) ->
  exists dc c b_dc b_c,
    In dc df /\ In c df
    /\ aoi_id dc = data_center_aoi_id r /\ is_data_center dc = 1%Z
    /\ aoi_id c = control_aoi_id r /\ is_data_center c = 0%Z
    /\ aoi_buffer_m dc = Some b_dc /\ (b_dc == buffer_m r)%Q
    /\ aoi_buffer_m c = Some b_c /\ (b_c == buffer_m r)%Q.
Proof. exact (record_rows args df r). Qed.

(** One data center and three controls in a 500 m buffer, and a control
    in a 1000 m buffer that has no data center. *)
Definition place (a : string) (dc : Z) (buffer x : Q) : aoi :=
  {| aoi_id := a; is_data_center := dc; aoi_buffer_m := Some buffer;
     covariates := [Fin x] |}.

Definition four_sites : list aoi :=
  [place "dc1" 1 500 10; place "c1" 0 500 14; place "c2" 0 500 11;
   place "c3" 0 500 30; place "far" 0 1000 10].

Definition nearest (kk : Z) (nr : bool) : Args :=
  {| k := kk; no_reuse := nr; features := ["impervious_pct__mean"] |}.

Lemma matches_pair_rows_of_one_buffer_witness :
  exists r dc c,
    In r (main (nearest 2 false) four_sites)
    /\ In dc four_sites /\ In c four_sites
    /\ aoi_id dc = data_center_aoi_id r /\ is_data_center dc = 1%Z
    /\ aoi_id c = control_aoi_id r /\ is_data_center c = 0%Z.
Proof.
  assert (Hin : In {| data_center_aoi_id := "dc1"; control_aoi_id := "c2";
                      buffer_m := 500; match_rank := 0;
                      distance := nth 0 (map distance
                                    (main (nearest 2 false) four_sites))
                                    (Sqrt NaN) |}
                   (main (nearest 2 false) four_sites)).
  { vm_compute. left. reflexivity. }
  destruct (matches_pair_rows_of_one_buffer _ _ _ Hin)
    as (dc & c & b1 & b2 & H1 & H2 & H3 & H4 & H5 & H6 & _).
  eexists. exists dc, c. split; [exact Hin|]. repeat split; assumption.
Defined.

(** ** When every (data center, buffer) pair is processed once *)

Lemma NoDup_group_keys (df : list aoi) :
  List.NoDup (group_keys Qeq_bool aoi_buffer_m df).
Proof.
  induction df as [|r df IH]; cbn [group_keys]; [constructor|].
  destruct (aoi_buffer_m r) as [b|]; [|exact IH].
  constructor; [|apply List.NoDup_filter, IH].
  intros H. apply List.filter_In in H. destruct H as [_ H].
  rewrite (proj2 (Qeq_bool_iff b b) (Qeq_refl b)) in H. discriminate.
Qed.

Lemma NoDup_buffers (df : list aoi) : List.NoDup (buffers df).
Proof.
  unfold buffers, sort.
  apply (Permutation_NoDup
           (l := group_keys Qeq_bool aoi_buffer_m df));
    [|apply NoDup_group_keys].
  symmetry. apply merge_sort_Permutation.
Qed.

Lemma treatments_of_group (args : Args) (b : Q) (grp : list aoi)
    (g : buffer_group) :
  prepare_group args b grp = Some g ->
  treatments_of g = map (fun a => (a, b)) (map aoi_id (data_centers grp)).
Proof.
  intros H.
  destruct (prepare_group_spec args b grp g H) as (Eb & _ & Edcs & _).
  unfold treatments_of. rewrite <- Edcs, Eb, map_map. reflexivity.
Qed.

Lemma treatments_buffers (args : Args) (df : list aoi) (keys : list Q) :
  List.NoDup keys ->
  (forall b, In b keys ->
             List.NoDup (map aoi_id (data_centers (buffer_rows b df)))) ->
  List.NoDup
    (treatments
       (map (fun b => prepare_group args b (buffer_rows b df)) keys))
  /\ forall t,
       In t (treatments
               (map (fun b => prepare_group args b (buffer_rows b df))
                    keys)) ->
       In (snd t) keys.
Proof.
  induction 1 as [|b keys Hb Hkeys IH]; intros Hids; cbn [map treatments].
  { split; [constructor | intros t []]. }
  destruct IH as [IH1 IH2].
  { intros b' Hb'. apply Hids. right. exact Hb'. }
  destruct (prepare_group args b (buffer_rows b df)) as [g|] eqn:E.
  2:{ split; [exact IH1|]. intros t Ht. right. exact (IH2 t Ht). }
  rewrite (treatments_of_group args b _ g E).
  set (ids := map aoi_id (data_centers (buffer_rows b df))).
  assert (Hhere : forall t, In t (map (fun a => (a, b)) ids) -> snd t = b).
  { intros t Ht. apply List.in_map_iff in Ht. destruct Ht as (a & <- & _).
    reflexivity. }
  split.
  - apply List.NoDup_app.
    + apply List.NoDup_map_NoDup_ForallPairs;
        [|apply Hids; left; reflexivity].
      intros a1 a2 _ _ [= ->]. reflexivity.
    + exact IH1.
    + intros t Ht Ht'. apply Hb. rewrite <- (Hhere t Ht). exact (IH2 t Ht').
  - intros t Ht. apply List.in_app_iff in Ht. destruct Ht as [Ht | Ht].
    + left. symmetry. exact (Hhere t Ht).
    + right. exact (IH2 t Ht).
Qed.

Lemma NoDup_List {A} (l : list A) : List.NoDup l -> NoDup l.
Proof.
  induction 1 as [|x l Hx _ IH]; constructor; [|exact IH].
  intros H. apply Hx, list_elem_of_In, H.
Qed.

(** No (data center, buffer) pair is processed twice when, within each
    buffer, no id is shared by two data-center rows of the table. *)
Lemma unique_ids_unique_treatments (args : Args) (df : list aoi) :
  (forall b, In b (buffers df) ->
             List.NoDup (map aoi_id (data_centers (buffer_rows b df)))) ->
  NoDup (treatments (buffer_groups args df)).
Proof.
  intros Hids. apply NoDup_List.
  exact (proj1 (treatments_buffers args df (buffers df) (NoDup_buffers df)
                  Hids)).
Qed.

(** ** The nearest available control comes first *)

Lemma pick_first (args : Args) (dc_id : string) (buffer : Q)
    (ctrl_ids : list string) (row : list root) (order : list nat)
    (picked rank : nat) (used : gset string) (r : MatchResult)
    (rs : list MatchResult) :
  StronglySorted
    (fun i j => dist_le (nth i row (Sqrt NaN)) (nth j row (Sqrt NaN))) order ->
  fst (pick args dc_id buffer ctrl_ids row order picked rank used) = r :: rs ->
  match_rank r = rank
  /\ forall j, In j order ->
               no_reuse args = false \/ nth j ctrl_ids "" ∉ used ->
               dist_le (distance r) (nth j row (Sqrt NaN)).
Proof.
  intros Hs. revert picked rank used.
  induction Hs as [|j0 order Hs IH Hj0]; intros picked rank used;
    cbn [pick]; [discriminate|].
  destruct (no_reuse args && bool_decide (nth j0 ctrl_ids "" ∈ used)) eqn:E.
  { intros H. destruct (IH _ _ _ H) as [Hrank Hnear].
    split; [exact Hrank|]. intros j [<- | Hj] Hfree; [|exact (Hnear j Hj Hfree)].
    apply andb_true_iff in E. destruct E as [E1 E2].
    apply bool_decide_eq_true in E2.
    destruct Hfree as [Hfree | Hfree]; [congruence | contradiction]. }
  assert (Hhead : forall r' rs',
             {| data_center_aoi_id := dc_id;
                control_aoi_id := nth j0 ctrl_ids "";
                buffer_m := buffer;
                match_rank := rank;
                distance := nth j0 row (Sqrt NaN) |} :: rs' = r' :: rs ->
             match_rank r' = rank
             /\ forall j, In j (j0 :: order) ->
                          no_reuse args = false \/ nth j ctrl_ids "" ∉ used ->
                          dist_le (distance r') (nth j row (Sqrt NaN))).
  { intros r' rs' [= <- _]. cbn [match_rank distance].
    split; [reflexivity|]. intros j [<- | Hj] _; [apply dist_le_refl|].
    rewrite List.Forall_forall in Hj0. exact (Hj0 j Hj). }
  destruct (k args <=? Z.of_nat (S picked))%Z.
  { cbn [fst]. apply Hhead. }
  destruct (pick args dc_id buffer ctrl_ids row order (S picked) (S rank)
              ({[nth j0 ctrl_ids ""]} ∪ used)) as [rs' used'].
  cbn [fst]. apply Hhead.
Qed.

(** X24.  The first match of a data center has rank 0 and is a nearest
    control among those still available: no control of the group is
    nearer when controls may be reused, and no control that is still
    unused is nearer under [--no_reuse].  (A distance that is [NaN], from
    a missing covariate, counts as the farthest.) *)
Theorem first_match_is_nearest_available (args : Args) (dc_id : string)
    (buffer : Q) (ctrl_ids : list string) (row : list root)
    (used : gset string) (r : MatchResult) (rs : list MatchResult) :
  fst (pick args dc_id buffer ctrl_ids row (argsort row) 0 0 used) = r :: rs ->
  match_rank r = 0%nat
  /\ forall j, (j < length row)%nat ->
               no_reuse args = false \/ nth j ctrl_ids "" ∉ used ->
               dist_le (distance r) (nth j row (Sqrt NaN)).
Proof.
  intros H.
  destruct (pick_first args dc_id buffer ctrl_ids row (argsort row) 0 0 used
              r rs (argsort_sorted row) H) as [Hrank Hnear].
  split; [exact Hrank|]. intros j Hj. apply Hnear, argsort_lt, Hj.
Qed.

Lemma first_match_is_nearest_available_witness :
  exists r rs,
    fst (pick (nearest 2 true) "dc1" 500 ["c1"; "c2"; "c3"]
           [Sqrt (Fin 16); Sqrt (Fin 1); Sqrt (Fin 400)]
           (argsort [Sqrt (Fin 16); Sqrt (Fin 1); Sqrt (Fin 400)]) 0 0
           {[ "c2" ]}) = r :: rs
    /\ control_aoi_id r = "c1"
    /\ dist_le (distance r) (Sqrt (Fin 400)).
Proof.
  eexists. eexists. split; [vm_compute; reflexivity|].
  split; [reflexivity|].
  refine (proj2 (first_match_is_nearest_available (nearest 2 true) "dc1" 500
                   ["c1"; "c2"; "c3"]
                   [Sqrt (Fin 16); Sqrt (Fin 1); Sqrt (Fin 400)]
                   {[ "c2" ]} _ _ _) 2%nat _ _).
  - vm_compute. reflexivity.
  - cbn. lia.
  - right. cbn. set_solver.
Defined.

(** ** How many matches there are *)

Lemma pick_length (args : Args) (dc_id : string) (buffer : Q)
    (ctrl_ids : list string) (row : list root) (order : list nat)
    (picked rank : nat) (used : gset string) :
  no_reuse args = false ->
  length (fst (pick args dc_id buffer ctrl_ids row order picked rank used))
  = Nat.min (length order)
            (Z.to_nat (Z.max 1 (k args - Z.of_nat picked))).
Proof.
  intros Hnr. revert picked rank used.
  induction order as [|j order IH]; intros picked rank used; cbn [pick].
  { reflexivity. }
  rewrite Hnr. cbn [andb].
  destruct (k args <=? Z.of_nat (S picked))%Z eqn:Hk.
  { apply Z.leb_le in Hk. cbn [fst length]. lia. }
  apply Z.leb_gt in Hk.
  specialize (IH (S picked) (S rank) ({[nth j ctrl_ids ""]} ∪ used)).
  destruct (pick args dc_id buffer ctrl_ids row order (S picked) (S rank)
              ({[nth j ctrl_ids ""]} ∪ used)) as [rs used'].
  cbn [fst length] in *. rewrite IH. lia.
Qed.

Lemma match_dcs_length (args : Args) (buffer : Q) (ctrl_ids : list string)
    (dcs : list (string * list root)) (used : gset string) :
  no_reuse args = false ->
  Forall (fun dc => length (snd dc) = length ctrl_ids) dcs ->
  length (fst (match_dcs args buffer ctrl_ids dcs used))
  = (length dcs * quota args (length ctrl_ids))%nat.
Proof.
  intros Hnr Hwf. revert used.
  induction Hwf as [|[dc_id row] dcs Hrow _ IH]; intros used;
    cbn [match_dcs]; [reflexivity|].
  pose proof (pick_length args dc_id buffer ctrl_ids row (argsort row) 0 0
                used Hnr) as Hp.
  destruct (pick args dc_id buffer ctrl_ids row (argsort row) 0 0 used)
    as [rs used1].
  specialize (IH used1).
  destruct (match_dcs args buffer ctrl_ids dcs used1) as [rs' used2].
  cbn [fst snd length] in *. rewrite length_app, Hp, IH, length_argsort, Hrow.
  unfold quota. rewrite Z.sub_0_r. lia.
Qed.

Definition group_matches (args : Args) (g : option buffer_group) : nat :=
  match g with
  | Some g => length (group_dcs g) * quota args (length (group_ctrl_ids g))
  | None => 0
  end.

Lemma main_loop_length (args : Args) (groups : list (option buffer_group))
    (used : gset string) :
  no_reuse args = false ->
  Forall (fun g => match g with Some g => well_formed g | None => True end)
         groups ->
  length (fst (main_loop args groups used))
  = list_sum (map (group_matches args) groups).
Proof.
  intros Hnr Hwf. revert used.
  induction Hwf as [|[g|] groups Hg _ IH]; intros used; cbn [main_loop];
    [reflexivity | | apply IH].
  pose proof (match_dcs_length args (group_buffer_m g) (group_ctrl_ids g)
                (group_dcs g) used Hnr Hg) as Hm.
  destruct (match_dcs args (group_buffer_m g) (group_ctrl_ids g)
              (group_dcs g) used) as [rs used1].
  specialize (IH used1).
  destruct (main_loop args groups used1) as [rs' used2].
  cbn [fst map list_sum group_matches] in *. rewrite length_app, Hm, IH.
  reflexivity.
Qed.

(** The matches a buffer group gives when controls may be reused. *)
Definition expected_matches (args : Args) (g : list aoi) : nat :=
  length (data_centers g) * quota args (length (control_rows g)).

Lemma prepare_group_matches (args : Args) (b : Q) (grp : list aoi) :
  group_matches args (prepare_group args b grp) = expected_matches args grp
  /\ match prepare_group args b grp with
     | Some g => well_formed g
     | None => True
     end.
Proof.
  destruct (prepare_group args b grp) as [g|] eqn:E.
  - destruct (prepare_group_spec args b grp g E) as (_ & Eids & Edcs & Hwf).
    split; [|exact Hwf]. unfold group_matches, expected_matches.
    rewrite Eids, length_map.
    rewrite <- (length_map fst (group_dcs g)), Edcs, length_map. reflexivity.
  - split; [|exact I]. unfold group_matches, expected_matches.
    unfold prepare_group in E. fold (data_centers grp) in E.
    fold (control_rows grp) in E.
    destruct (data_centers grp); [reflexivity|].
    destruct (control_rows grp); [|discriminate].
    unfold quota. cbn [length]. lia.
Qed.

(** X25.  When controls may be reused, the size of the output is known in
    advance: every data center gets [min(max(k, 1), n)] matches, [n] the
    number of controls of its buffer.  With [--k 0], or a negative [k],
    every data center still gets one match. *)
Theorem match_count_with_reuse (args : Args) (df : list aoi) :
  no_reuse args = false ->
  length (main args df)
  = list_sum (map (fun b => expected_matches args (buffer_rows b df))
                  (buffers df)).
Proof.
  intros Hnr. unfold main.
  rewrite main_loop_length; [|exact Hnr|].
  - unfold buffer_groups. fold (buffers df). rewrite map_map.
    f_equal. apply map_ext. intros b.
    apply (prepare_group_matches args b).
  - unfold buffer_groups. apply List.Forall_forall. intros g Hg.
    apply List.in_map_iff in Hg. destruct Hg as (b & <- & _).
    apply (prepare_group_matches args b).
Qed.

Lemma match_count_with_reuse_witness :
  length (main (nearest 0 false) four_sites) = 1%nat
  /\ length (main (nearest 2 false) four_sites) = 2%nat
  /\ length (main (nearest 7 false) four_sites) = 3%nat.
Proof.
  rewrite !match_count_with_reuse by reflexivity.
  vm_compute. repeat split.
Defined.

(** ** Under [--no_reuse] there are no more matches than controls *)

Lemma NoDup_stdpp {A} (l : list A) : NoDup l -> List.NoDup l.
Proof.
  induction 1 as [|x l Hx _ IH]; constructor; [|exact IH].
  intros H. apply Hx, list_elem_of_In, H.
Qed.

(** X26.  Under [--no_reuse] every control row is matched at most once, so the
    output has no more records than the table has control rows. *)
Theorem no_reuse_bounds_output (args : Args) (df : list aoi) :
  no_reuse args = true ->
  (length (main args df) <= length (control_rows df))%nat.
Proof.
  intros Hnr.
  destruct (main_loop_stretch args (buffer_groups args df) ∅)
    as (_ & _ & H).
  destruct (H Hnr) as [_ Hnd]. fold (main args df) in Hnd.
  rewrite <- (length_map control_aoi_id (main args df)).
  rewrite <- (length_map aoi_id (control_rows df)).
  apply List.NoDup_incl_length; [apply NoDup_stdpp, Hnd|].
  intros c Hc. apply List.in_map_iff in Hc. destruct Hc as (r & <- & Hr).
  destruct (record_rows args df r Hr)
    as (_ & c & _ & _ & _ & Hin & _ & _ & Hid & Hc0 & _).
  apply List.in_map_iff. exists c. split; [exact Hid|].
  apply List.filter_In. split; [exact Hin|]. apply Z.eqb_eq, Hc0.
Qed.

Lemma no_reuse_bounds_output_witness :
  (length (main (nearest 7 true) four_sites) <= 4)%nat.
Proof.
  exact (no_reuse_bounds_output (nearest 7 true) four_sites eq_refl).
Defined.

End MatchingFacts.

(* ===================================================================== *)
(** * Quality masking without companion rasters                           *)
(* ===================================================================== *)

Module MaskingFacts.
Import Zonal.

(** What the masking block does to the data when no companion is read:
    [keep = np.isfinite(data); data[~keep] = np.nan]. *)
Definition clean (data : list float) : list float :=
  map (fun x => if isfinite x then x else NaN) data.

Lemma zip_keep_finite (data : list float) :
  zip_with (fun (k : bool) x => if k then x else NaN) (map isfinite data) data
  = clean data.
Proof.
  induction data as [|x data IH]; [reflexivity|].
  cbn. f_equal. exact IH.
Qed.

Lemma isfinite_clean (data : list float) :
  map isfinite (clean data) = map isfinite data.
Proof.
  unfold clean. rewrite map_map. apply map_ext. intros []; reflexivity.
Qed.

Lemma finite_values_clean (data : list float) :
  finite_values (clean data) = finite_values data.
Proof.
  unfold clean. induction data as [|x data IH]; [reflexivity|].
  destruct x; cbn; rewrite ?IH; reflexivity.
Qed.

Lemma safe_stat_ext (a b : list float) (stat : string) :
  map isfinite a = map isfinite b ->
  finite_values a = finite_values b ->
  safe_stat a stat = safe_stat b stat.
Proof.
  intros Hflags Hvals. unfold safe_stat.
  rewrite Hflags, Hvals.
  replace (length a) with (length b); [reflexivity|].
  rewrite <- (length_map isfinite b), <- Hflags. apply length_map.
Qed.

Lemma mapM_ext {A B} (f g : A -> result B) (l : list A) :
  (forall x, f x = g x) -> mapM f l = mapM g l.
Proof.
  intros H. induction l as [|x l IH]; [reflexivity|].
  cbn. rewrite H, IH. reflexivity.
Qed.

Lemma stats_ext (a b : list float) (names : list string) :
  map isfinite a = map isfinite b ->
  finite_values a = finite_values b ->
  mapM (fun stat => v ← safe_stat a stat; mret (stat, v)) names
  = mapM (fun stat => v ← safe_stat b stat; mret (stat, v)) names.
Proof.
  intros Hflags Hvals. apply mapM_ext. intros stat.
  rewrite (safe_stat_ext a b stat Hflags Hvals). reflexivity.
Qed.

(** The statistics of the cleaned data are those of the data. *)
Lemma finish_clean (cfg : Config) (data : list float) :
  (d ← transform_values (clean data) cfg;
   mapM (fun stat => v ← safe_stat d stat; mret (stat, v)) (stats cfg))
  = (d ← transform_values data cfg;
     mapM (fun stat => v ← safe_stat d stat; mret (stat, v)) (stats cfg)).
Proof.
  unfold transform_values.
  destruct (String.eqb (type (value_transform cfg)) "identity").
  { cbn. apply stats_ext; [apply isfinite_clean | apply finite_values_clean]. }
  destruct (String.eqb (type (value_transform cfg)) "scale_offset");
    [|reflexivity].
  cbn. apply stats_ext.
  - rewrite !map_map. unfold clean. rewrite map_map. apply map_ext.
    intros x. rewrite !ZonalFacts.isfinite_affine. destruct x; reflexivity.
  - rewrite !ZonalFacts.finite_values_affine, finite_values_clean.
    reflexivity.
Qed.

Section Rasters.
Context {Geometry : Type}.

Lemma quality_mask_none (geom : Geometry) (cfg : Config)
    (data : list float) :
  quality_mask geom cfg None None None None data = ([], Ok (clean data)).
Proof.
  unfold quality_mask. cbn.
  destruct (max_lst_err (quality cfg)); cbn; rewrite zip_keep_finite;
    reflexivity.
Qed.

(** The rest of a run, from the data after the nodata rules. *)
Definition finish (cfg : Config) (data : list float)
  : io (gmap string float) :=
  data ← lift (transform_values data cfg);
  kvs ← lift (mapM (fun stat => v ← safe_stat data stat; mret (stat, v))
                   (stats cfg));
  mret (list_to_map kvs).

Lemma finish_result (cfg : Config) (data : list float) :
  finish cfg data
  = ([], kvs ← (d ← transform_values data cfg;
                mapM (fun stat => v ← safe_stat d stat; mret (stat, v))
                     (stats cfg));
         mret (list_to_map kvs)).
Proof.
  unfold finish. destruct (transform_values data cfg) as [d|e]; cbn;
    [|reflexivity].
  destruct (mapM _ (stats cfg)); reflexivity.
Qed.

Lemma io_ret_bind {A B} (m : io A) (a : A) (f : A -> io B) :
  m = ([], Ok a) -> m ≫= f = f a.
Proof. intros ->. unfold mbind, io_bind. destruct (f a); reflexivity. Qed.

Lemma io_bind_ext {A B} (m : io A) (f g : A -> io B) :
  (forall a, f a = g a) -> m ≫= f = m ≫= g.
Proof.
  intros H. destruct m as [l [a|e]]; [|reflexivity].
  unfold mbind, io_bind. rewrite H. reflexivity.
Qed.

Lemma masked_finish (geom : Geometry) (cfg : Config) (on : bool)
    (data : list float) :
  (data ← (if on then quality_mask geom cfg None None None None data
           else mret data);
   finish cfg data)
  = finish cfg data.
Proof.
  destruct on.
  - rewrite (io_ret_bind _ (clean data)) by apply quality_mask_none.
    rewrite !finish_result, finish_clean. reflexivity.
  - apply io_ret_bind. reflexivity.
Qed.

Lemma run_without_companions (src : DatasetReader Geometry float)
    (geom : Geometry) (cfg cfg' : Config) :
  nodata_equals cfg = nodata_equals cfg' ->
  nodata_below cfg = nodata_below cfg' ->
  value_transform cfg = value_transform cfg' ->
  stats cfg = stats cfg' ->
  zonal_stats_for_geom src geom cfg None None None None
  = zonal_stats_for_geom src geom cfg' None None None None.
Proof.
  intros He Hb Ht Hs.
  assert (Hnan : nan_stats cfg = nan_stats cfg')
    by (unfold nan_stats; rewrite Hs; reflexivity).
  assert (Hfin : forall data, finish cfg data = finish cfg' data).
  { intros data. unfold finish, transform_values. rewrite Ht, Hs.
    reflexivity. }
  unfold zonal_stats_for_geom. rewrite He, Hb, Hnan.
  apply io_bind_ext; intros [].
  destruct (bounds_intersects src geom) as [[|]|e]; try reflexivity;
    (apply io_bind_ext; intros [];
     destruct (mask src geom) as [data|e']; [|reflexivity]).
  all: fold (finish cfg); fold (finish cfg').
  all: rewrite (masked_finish geom cfg), (masked_finish geom cfg').
  all: apply Hfin.
Qed.

(** X11.  Without companion rasters the quality settings do not matter: two
    configurations that differ only in their quality block give the same
    run (the same calls and the same dictionary), so masking that is
    switched on but finds no companion is masking switched off. *)
Theorem quality_settings_need_companions
    (src : DatasetReader Geometry float) (geom : Geometry)
    (cfg cfg' : Config) :
  nodata_equals cfg = nodata_equals cfg' ->
  nodata_below cfg = nodata_below cfg' ->
  value_transform cfg = value_transform cfg' ->
  stats cfg = stats cfg' ->
  zonal_stats_for_geom src geom cfg None None None None
  = zonal_stats_for_geom src geom cfg' None None None None.
Proof. exact (run_without_companions src geom cfg cfg'). Qed.

(** The four candidate paths of the companions of the raster [name]. *)
Definition candidates (cfg : Config) (name : string) : list string :=
  let q := quality cfg in
  let base := drop_last (String.length "_LST.tif") name in
  [base +:+ cloud_suffix q; base +:+ water_suffix q; base +:+ qc_suffix q;
   base +:+ lst_err_suffix q].

(** X12.  A raster whose name does not end in [_LST.tif], or none of
    whose four candidate companion paths exists, gets the record of a
    run without companions under any quality settings: in particular
    the record of a run with quality masking switched off.  Other files
    of the directory, the raster itself included, do not matter. *)
Theorem raster_without_companions_is_unmasked (cfg cfg' : Config)
    (fs : FileSystem Geometry) (name : string)
    (src : DatasetReader Geometry float) (geom : Geometry) :
  endswith name "_LST.tif" = false
  \/ Forall (fun p => exists_ fs p = false) (candidates cfg name) ->
  nodata_equals cfg = nodata_equals cfg' ->
  nodata_below cfg = nodata_below cfg' ->
  value_transform cfg = value_transform cfg' ->
  stats cfg = stats cfg' ->
  main_zonal_record cfg fs name src geom
  = zonal_stats_for_geom src geom cfg' None None None None.
Proof.
  intros Hname He Hb Ht Hs.
  assert (Hnone : open_companions cfg fs name = (None, None, None, None)).
  { unfold open_companions.
    destruct (enabled (quality cfg) && ecostress_companion_masks (quality cfg)
              && endswith name "_LST.tif") eqn:E; [|reflexivity].
    destruct Hname as [Hname | Hfs].
    - rewrite Hname, andb_false_r in E. discriminate.
    - unfold candidates in Hfs.
      apply List.Forall_cons_iff in Hfs. destruct Hfs as [H1 Hfs].
      apply List.Forall_cons_iff in Hfs. destruct Hfs as [H2 Hfs].
      apply List.Forall_cons_iff in Hfs. destruct Hfs as [H3 Hfs].
      apply List.Forall_cons_iff in Hfs. destruct Hfs as [H4 _].
      unfold open_if_exists. rewrite H1, H2, H3, H4. reflexivity. }
  unfold main_zonal_record. rewrite Hnone.
  apply run_without_companions; assumption.
Qed.

End Rasters.

Definition quality_off : Config :=
  {| nodata_below := nodata_below quality_on;
     nodata_equals := nodata_equals quality_on;
     value_transform := value_transform quality_on;
     stats := stats quality_on;
     quality := default_quality;
     baseline := baseline quality_on |}.

Lemma quality_settings_need_companions_witness :
  zonal_stats_for_geom lst_tile () quality_on None None None None
  = zonal_stats_for_geom lst_tile () quality_off None None None None.
Proof.
  exact (quality_settings_need_companions lst_tile () quality_on quality_off
           eq_refl eq_refl eq_refl eq_refl).
Defined.

(** A directory that holds the raster and nothing else. *)
Definition lone_raster : FileSystem unit :=
  {| exists_ := fun path => String.eqb path "tile_LST.tif";
     open_int := fun _ => Raise (OtherError "no such file");
     open_float := fun _ => Raise (OtherError "no such file") |}.

Lemma raster_without_companions_is_unmasked_witness :
  exists_ lone_raster "tile_LST.tif" = true
  /\ main_zonal_record quality_on lone_raster "tile_LST.tif" lst_tile ()
     = zonal_stats_for_geom lst_tile () quality_off None None None None.
Proof.
  split; [reflexivity|].
  apply (raster_without_companions_is_unmasked quality_on quality_off
           lone_raster "tile_LST.tif" lst_tile ());
    try reflexivity.
  right. repeat (apply List.Forall_cons; [reflexivity|]).
  apply List.Forall_nil.
Defined.

End MaskingFacts.

(* ===================================================================== *)
(** * Further results on the risk score                                   *)
(* ===================================================================== *)

Module RiskFacts.
Import Anomaly.

Lemma Qclip_monotone (lower upper a b : Q) :
  (a <= b)%Q -> (Qclip lower upper a <= Qclip lower upper b)%Q.
Proof.
  intros H. unfold Qclip.
  apply Q.min_le_compat_r, Q.max_le_compat_r, H.
Qed.

Lemma contribution_monotone (lower upper : Q) (x y : float) :
  (lower <= upper)%Q -> fleb x y = true ->
  (contribution lower upper x <= contribution lower upper y)%Q.
Proof.
  intros Hlu H.
  destruct x as [a| | |], y as [b| | |]; cbn [fleb contribution] in *;
    try discriminate; try apply Qle_refl; try exact Hlu;
    try (apply Qclip_range; exact Hlu).
  apply Qclip_monotone, Qle_bool_iff, H.
Qed.

Lemma row_score_value (r : latest_row) :
  row_score r
  = Fin (Qclip 0 100
           (contribution (-3) 6 (z r) * 10
            + inject_Z (hot_nights_14 r) / 14 * 25
            + contribution 0 5 (trend_c_per_year r) * 5)).
Proof.
  unfold row_score. rewrite !clip_fillna_contribution. reflexivity.
Qed.

(** X17.  The score never falls when the inputs rise: of two AOIs, the one
    with the larger z-score, at least as many hot nights and the larger
    trend has a score that is at least as large. *)
Theorem risk_score_monotone (latest : list latest_row) (i j : nat)
    (r1 r2 : latest_row) :
  nth_error latest i = Some r1 ->
  nth_error latest j = Some r2 ->
  fleb (z r1) (z r2) = true ->
  (hot_nights_14 r1 <= hot_nights_14 r2)%Z ->
  fleb (trend_c_per_year r1) (trend_c_per_year r2) = true ->
  exists s1 s2 : Q,
    nth_error (risk_score latest) i = Some (Fin s1)
    /\ nth_error (risk_score latest) j = Some (Fin s2)
    /\ (s1 <= s2)%Q.
Proof.
  intros Hi Hj Hz Hh Ht.
  rewrite risk_score_rowwise, !nth_error_map, Hi, Hj. cbn [option_map].
  rewrite !row_score_value. eexists _, _.
  split; [reflexivity|]. split; [reflexivity|].
  apply Qclip_monotone.
  pose proof (contribution_monotone (-3) 6 _ _ ltac:(discriminate) Hz) as H1.
  pose proof (contribution_monotone 0 5 _ _ ltac:(discriminate) Ht) as H2.
  assert (H3 : (inject_Z (hot_nights_14 r1) <= inject_Z (hot_nights_14 r2))%Q)
    by (rewrite <- Zle_Qle; exact Hh).
  set (c1 := contribution (-3) 6 (z r1)) in *.
  set (c2 := contribution (-3) 6 (z r2)) in *.
  set (t1 := contribution 0 5 (trend_c_per_year r1)) in *.
  set (t2 := contribution 0 5 (trend_c_per_year r2)) in *.
  assert (H4 : (inject_Z (hot_nights_14 r1) / 14 * 25
                <= inject_Z (hot_nights_14 r2) / 14 * 25)%Q).
  { apply Qmult_le_compat_r; [|discriminate].
    unfold Qdiv. apply Qmult_le_compat_r; [exact H3 | discriminate]. }
  set (h1 := (inject_Z (hot_nights_14 r1) / 14 * 25)%Q) in *.
  set (h2 := (inject_Z (hot_nights_14 r2) / 14 * 25)%Q) in *.
  lra.
Qed.

Definition cool : latest_row :=
  {| z := Fin (1 # 2); hot_nights_14 := 2; trend_c_per_year := NInf |}.

Definition warm : latest_row :=
  {| z := Fin 2; hot_nights_14 := 7; trend_c_per_year := Fin (1 # 10) |}.

Lemma risk_score_monotone_witness :
  exists s1 s2 : Q,
    nth_error (risk_score [cool; warm]) 0 = Some (Fin s1)
    /\ nth_error (risk_score [cool; warm]) 1 = Some (Fin s2)
    /\ (s1 <= s2)%Q.
Proof.
  apply (risk_score_monotone [cool; warm] 0 1 cool warm);
    try reflexivity. cbn. lia.
Defined.

End RiskFacts.

(* ===================================================================== *)
(** * Further results on the recent hot nights                            *)
(* ===================================================================== *)

Module HotNightsFacts.
Import HotNights.

Lemma later_same_disjoint (t : Z) (dts : list (option Z)) :
  (length (List.filter (later t) dts) + length (List.filter (same t) dts)
   <= length dts)%nat.
Proof.
  induction dts as [|d dts IH]; [cbn; lia|].
  destruct d as [u|]; cbn [List.filter later same length]; [|lia].
  destruct (Z.ltb_spec t u), (Z.eqb_spec u t); cbn [length]; lia.
Qed.

Lemma before_lt_length (dts : list (option Z)) (k : nat) (t : Z) :
  nth_error dts k = Some (Some t) -> (before dts k t < length dts)%nat.
Proof.
  intros H. unfold before.
  pose proof (later_same_disjoint t dts).
  pose proof (same_count_before t dts k H). lia.
Qed.

Lemma filter_all {A} (f : A -> bool) (l : list A) :
  (forall x, In x l -> f x = true) -> List.filter f l = l.
Proof.
  induction l as [|x l IH]; intros H; [reflexivity|].
  cbn. rewrite (H x (or_introl eq_refl)). f_equal.
  apply IH. intros y Hy. apply H. right. exact Hy.
Qed.

Lemma snd_combine_seq {A} (l : list A) (s : nat) :
  map snd (combine (seq s (length l)) l) = l.
Proof.
  revert s. induction l as [|x l IH]; intros s; [reflexivity|].
  cbn. now rewrite IH.
Qed.

Lemma recent_all (g : list row) :
  (length g <= 14)%nat -> Forall (fun r => dt r <> None) g -> recent g = g.
Proof.
  intros Hlen Hdated. unfold recent. rewrite filter_all.
  { apply snd_combine_seq. }
  intros [k r] Hin. cbn [fst snd]. unfold rank_desc.
  pose proof (in_indexed g k r Hin) as Hk.
  rewrite List.Forall_forall in Hdated.
  specialize (Hdated r (nth_error_In _ _ Hk)).
  destruct (dt r) as [t|] eqn:Et; [|congruence].
  apply Nat.leb_le.
  assert (Hn : nth_error (map dt g) k = Some (Some t))
    by (rewrite nth_error_map, Hk; cbn; now rewrite Et).
  pose proof (before_lt_length _ _ _ Hn) as Hb.
  rewrite length_map in Hb. lia.
Qed.

Lemma flags_count (l : list row) :
  fold_right Z.add 0%Z (map (fun r => if is_hot_night r then 1 else 0)%Z l)
  = Z.of_nat (length (List.filter is_hot_night l)).
Proof.
  induction l as [|r l IH]; [reflexivity|].
  cbn [map fold_right List.filter]. rewrite IH.
  destruct (is_hot_night r); cbn [length]; lia.
Qed.

(** X16.  For an AOI with at most fourteen observations, all of them dated,
    the frequency is the number of its hot nights: no observation is
    left out of the count. *)
Theorem few_dated_observations_all_count (df2 : list row) (a : string) :
  (length (group_rows a df2) <= 14)%nat ->
  Forall (fun r => dt r <> None) (group_rows a df2) ->
  hot_nights_14 df2 a
  = Z.of_nat (length (List.filter is_hot_night (group_rows a df2))).
Proof.
  intros Hlen Hdated. unfold hot_nights_14.
  rewrite (recent_all _ Hlen Hdated). apply flags_count.
Qed.

Definition three_nights : list row :=
  [ {| aoi_id := "aoi_mid"; dt := Some 1%Z; is_hot_night := true |};
    {| aoi_id := "aoi_mid"; dt := Some 2%Z; is_hot_night := false |};
    {| aoi_id := "aoi_far"; dt := Some 2%Z; is_hot_night := true |};
    {| aoi_id := "aoi_mid"; dt := Some 2%Z; is_hot_night := true |} ].

Lemma few_dated_observations_all_count_witness :
  hot_nights_14 three_nights "aoi_mid" = 2%Z.
Proof.
  rewrite few_dated_observations_all_count.
  - reflexivity.
  - cbn. lia.
  - cbn. repeat (apply List.Forall_cons; [discriminate|]).
    apply List.Forall_nil.
Defined.

End HotNightsFacts.
